(** * Exception-monitor / inferior-control harness (system/utest/debugger/debugger.c)

    A shallow embedding of the debugger unit test: the supervisor side
    (exception-monitor worker, memory test, thread-list test, watchdog, main)
    and the inferior side (fault generator, message loop), together with the
    properties the design document states about them.

    Kernel services are an interface ([Kernel]); the supervisor code is
    written once against that interface and instantiated with a small
    simulated kernel when a property needs both processes at once. *)

From stdpp Require Import base functions list strings.
From Stdlib Require Import ZArith Lia Ascii.

Local Open Scope Z_scope.

(** ** Constants of debugger.c *)

(** [#define WATCHDOG_DURATION_TICK ((int64_t) 500 * 1000 * 1000)] *)
Definition WATCHDOG_DURATION_TICK : Z := 500 * 1000 * 1000.
(** [#define WATCHDOG_DURATION_TICKS 10] *)
Definition WATCHDOG_DURATION_TICKS : nat := 10.
(** [#define TEST_MEMORY_SIZE 8] *)
Definition TEST_MEMORY_SIZE : nat := 8.
(** [#define TEST_DATA_ADJUST 0x10] *)
Definition TEST_DATA_ADJUST : Z := 16.
(** [#define NUM_SEGV_TRIES 4] *)
Definition NUM_SEGV_TRIES : nat := 4.
(** [#define NUM_EXTRA_THREADS 4] *)
Definition NUM_EXTRA_THREADS : nat := 4.

(** [NO_ERROR] of magenta/errors.h. *)
Definition NO_ERROR : Z := 0.

(** Exit codes passed to [exit] or returned from [main]. *)
Definition EXIT_WATCHDOG : Z := 5.
Definition EXIT_MSG_LOOP_FAILED : Z := 20.
Definition EXIT_BAD_RESUME_DATA : Z := 21.
Definition EXIT_INFERIOR_DONE : Z := 1234.
Definition EXIT_DRIVER_OK : Z := 0.
Definition EXIT_DRIVER_FAILED : Z := -1.

(** How a thread function ends: [mx_thread_exit()] ends the calling thread
    only, [exit(code)] ends the whole process. *)
Inductive thread_end : Type :=
| ThreadExit
| ProcessExit (code : Z).

(** ** Watchdog *)

Module Watchdog.

(** What the watchdog thread does, in order. *)
Inductive action : Type :=
| Sleep (duration : Z)        (* mx_nanosleep(duration) *)
| Poll (tick : nat) (seen : bool)  (* read of done_tests *)
| Fired.                      (* unittest_printf("WATCHDOG TIMER FIRED\n") *)

(** [for (int i = 0; i < WATCHDOG_DURATION_TICKS; ++i) { ... }] with
    [ticks_left = WATCHDOG_DURATION_TICKS - i].  [done_tests_at i] is the
    value of the shared flag when the loop reads it in iteration [i]. *)
Fixpoint tick_loop (ticks_left i : nat) (done_tests_at : nat → bool)
    (acts : list action) : thread_end * list action :=
  match ticks_left with
  | O => (ProcessExit EXIT_WATCHDOG, acts ++ [Fired])
  | S n =>
      let acts := acts ++ [Sleep WATCHDOG_DURATION_TICK] in
      let seen := done_tests_at i in
      let acts := acts ++ [Poll i seen] in
      if seen then (ThreadExit, acts)
      else tick_loop n (S i) done_tests_at acts
  end.

Definition watchdog_thread_func (done_tests_at : nat → bool)
    : thread_end * list action :=
  tick_loop WATCHDOG_DURATION_TICKS 0 done_tests_at [].

(** The actions of [k] ticks that all saw the flag false, starting at
    tick [i]. *)
Fixpoint idle_ticks (k i : nat) : list action :=
  match k with
  | O => []
  | S k' => Sleep WATCHDOG_DURATION_TICK :: Poll i false :: idle_ticks k' (S i)
  end.

End Watchdog.

(** ** Control messages *)

(** Modelled from the spec: [enum message] of utils.h, which debugger.c
    includes, with the kinds of section 4.2.  The receiver stores whatever
    arrived on the channel into the enum, so a kind outside the
    enumeration can reach the [switch]: [MSG_UNKNOWN]. *)
Inductive message : Type :=
| MSG_DONE
| MSG_PING
| MSG_PONG
| MSG_CRASH
| MSG_RECOVERED_FROM_CRASH
| MSG_START_EXTRA_THREADS
| MSG_EXTRA_THREADS_STARTED
| MSG_UNKNOWN (raw : Z).

#[global] Instance message_eq_dec : EqDecision message.
Proof. solve_decision. Defined.

(** The four kinds [msg_loop] has a [case] for. *)
Definition recognized (m : message) : bool :=
  match m with
  | MSG_DONE | MSG_PING | MSG_CRASH | MSG_START_EXTRA_THREADS => true
  | _ => false
  end.

(** ** The shared completion flag

    [static bool done_tests = false;] together with the history of the
    stores made to it, oldest first. *)
Record globals : Type := {
  done_tests : bool;
  done_tests_stores : list bool
}.

Definition initial_globals : globals :=
  {| done_tests := false; done_tests_stores := [] |}.

(** [done_tests = v;] *)
Definition store_done_tests (v : bool) (g : globals) : globals :=
  {| done_tests := v; done_tests_stores := done_tests_stores g ++ [v] |}.

(** The values the flag takes over a run: its initial value, then each
    stored value. *)
Definition flag_history (g : globals) : list bool :=
  false :: done_tests_stores g.

(** Once the flag is true it stays true. *)
Definition monotone (history : list bool) : Prop :=
  ∀ (i j : nat) v, (i ≤ j)%nat →
    history !! i = Some true → history !! j = Some v → v = true.

(** How a process ends. *)
Inductive proc_end : Type :=
| Exited (code : Z)   (* exit(code), or return code from main *)
| Crashed             (* killed by an exception nobody handles *)
| Hung.               (* blocked for ever *)

(** ** Inferior side: fault generator and message loop *)

Module Inferior.

(** General registers the test uses.  The names are the x86-64 ones; on
    aarch64 the code uses x8, x9, x0 and sp in the same roles. *)
Record regs : Type := {
  r8 : Z;
  r9 : Z;
  rax : Z;
  rsp : Z
}.

(** The faulting thread as a debugger sees it: registers and the bytes of
    the address space. *)
Record machine : Type := {
  m_regs : regs;
  m_mem : Z → Z
}.

Inductive event : Type :=
| Send (m : message)                     (* send_msg(pipe, m) *)
| Fault (addr : Z)                       (* exception raised by the load at .Lsegv_here *)
| SegvReturn (ok : bool)                 (* test_prep_and_segv printed its verdict and returned ok *)
| ThreadCreate (name : string) (koid : Z)   (* tu_thread_create_c11 *)
| Printf (text : string).                (* unittest_printf *)

(** The inferior process.  [p_mapped] is its address-space layout,
    [p_debugger] what the attached debugger will do at each exception the
    process raises (the state it resumes the thread in); when the list is
    exhausted a faulting thread stays suspended. *)
Record process : Type := {
  p_globals : globals;
  p_machine : machine;
  p_mapped : Z → bool;
  p_main_thread : Z;
  p_extra_threads : list Z;
  p_next_koid : Z;
  p_debugger : list (machine → machine);
  p_trace : list event
}.

Definition with_machine (m : machine) (p : process) : process :=
  {| p_globals := p_globals p; p_machine := m; p_mapped := p_mapped p;
     p_main_thread := p_main_thread p; p_extra_threads := p_extra_threads p;
     p_next_koid := p_next_koid p; p_debugger := p_debugger p;
     p_trace := p_trace p |}.

Definition with_debugger (d : list (machine → machine)) (p : process) : process :=
  {| p_globals := p_globals p; p_machine := p_machine p; p_mapped := p_mapped p;
     p_main_thread := p_main_thread p; p_extra_threads := p_extra_threads p;
     p_next_koid := p_next_koid p; p_debugger := d;
     p_trace := p_trace p |}.

Definition with_globals (g : globals) (p : process) : process :=
  {| p_globals := g; p_machine := p_machine p; p_mapped := p_mapped p;
     p_main_thread := p_main_thread p; p_extra_threads := p_extra_threads p;
     p_next_koid := p_next_koid p; p_debugger := p_debugger p;
     p_trace := p_trace p |}.

Definition log (e : event) (p : process) : process :=
  {| p_globals := p_globals p; p_machine := p_machine p; p_mapped := p_mapped p;
     p_main_thread := p_main_thread p; p_extra_threads := p_extra_threads p;
     p_next_koid := p_next_koid p; p_debugger := p_debugger p;
     p_trace := p_trace p ++ [e] |}.

(** The messages sent in a trace, and the verdicts of the
    [test_prep_and_segv] calls in it, oldest first. *)
Definition sent (tr : list event) : list message :=
  omap (λ e, match e with Send m => Some m | _ => None end) tr.
Definition verdicts (tr : list event) : list bool :=
  omap (λ e, match e with SegvReturn ok => Some ok | _ => None end) tr.
Definition created (tr : list event) : list Z :=
  omap (λ e, match e with ThreadCreate _ koid => Some koid | _ => None end) tr.

(** Events that are neither a message nor a verdict. *)
Definition quiet (tr : list event) : Prop := sent tr = [] ∧ verdicts tr = [].

(** Every thread of the process, main thread first. *)
Definition threads (p : process) : list Z :=
  p_main_thread p :: p_extra_threads p.

(** A call either returns, or ends the process with [exit(code)], or never
    comes back. *)
Inductive result (A : Type) : Type :=
| Ret (a : A) (p : process)
| Exit (code : Z) (p : process)
| Blocked (p : process).
Arguments Ret {A} a p.
Arguments Exit {A} code p.
Arguments Blocked {A} p.

Definition final {A} (r : result A) : process :=
  match r with Ret _ p | Exit _ p | Blocked p => p end.

(** The value returned, and the exit code, if any. *)
Definition returned {A} (r : result A) : option A :=
  match r with Ret a _ => Some a | _ => None end.
Definition exit_code {A} (r : result A) : option Z :=
  match r with Exit code _ => Some code | _ => None end.

(** Modelled from the spec: [send_msg(pipe, m)] of utils.c puts [m] on the
    control channel (section 4.2); here it is recorded in the trace. *)
Definition send_msg (m : message) (p : process) : process := log (Send m) p.

(** Modelled from the spec: [tu_thread_create_c11(&thread,
    extra_thread_func, NULL, name)] of the test-utils library adds a
    thread to the process (section 5, "extra" threads); the new thread
    gets the next kernel object id, and [extra_thread_func] prints a line
    and sleeps for ever. *)
Definition tu_thread_create_c11 (name : string) (p : process) : process :=
  let koid := p_next_koid p in
  log (Printf "Extra thread started.")
    (log (ThreadCreate name koid)
      {| p_globals := p_globals p; p_machine := p_machine p;
         p_mapped := p_mapped p; p_main_thread := p_main_thread p;
         p_extra_threads := p_extra_threads p ++ [koid];
         p_next_koid := koid + 1; p_debugger := p_debugger p;
         p_trace := p_trace p |}).

(** Little-endian value of a byte string. *)
Definition le_combine (bs : list Z) : Z :=
  foldr (λ b acc, b + 256 * acc) 0 bs.

(** The bytes at [addr .. addr+n-1]. *)
Definition bytes_at (mem : Z → Z) (addr : Z) (n : nat) : list Z :=
  (λ i : nat, mem (addr + Z.of_nat i)) <$> seq 0 n.

Definition mapped_range (mapped : Z → bool) (addr : Z) (n : nat) : bool :=
  forallb (λ i : nat, mapped (addr + Z.of_nat i)) (seq 0 n).

Section FaultGenerator.

(** [&test_data[0]]: where the compiler put the local array of
    [test_prep_and_segv] on the stack. *)
Variable test_data : Z.

(** [for (unsigned i = 0; i < sizeof(test_data); ++i) test_data[i] = i;]
    with [n = sizeof(test_data) - i]; the store narrows to [uint8_t]. *)
Fixpoint seed_test_data (n i : nat) (mem : Z → Z) : Z → Z :=
  match n with
  | O => mem
  | S n' =>
      seed_test_data n' (S i)
        (<[test_data + Z.of_nat i := Z.of_nat i `mod` 256]> mem)
  end.

(** The asm block up to the label: [movq %0,%r9; movq $0,%r8]. *)
Definition prep_regs (r : regs) : regs :=
  {| r8 := 0; r9 := test_data; rax := rax r; rsp := rsp r |}.

(** [.Lsegv_here: movq (%r8),%rax].  When the eight bytes at [r8] are not
    all mapped the thread takes an exception and is suspended; the
    debugger's next response is the state it is resumed in, and the
    instruction runs again. *)
Fixpoint segv_here (debugger : list (machine → machine)) (p : process)
    : result unit :=
  let m := p_machine p in
  let addr := r8 (m_regs m) in
  if mapped_range (p_mapped p) addr 8 then
    let v := le_combine (bytes_at (m_mem m) addr 8) in
    let r := m_regs m in
    Ret tt (with_debugger debugger
      (with_machine
         {| m_regs := {| r8 := r8 r; r9 := r9 r; rax := v; rsp := rsp r |};
            m_mem := m_mem m |} p))
  else
    match debugger with
    | [] => Blocked (with_debugger [] (log (Fault addr) p))
    | d :: debugger' =>
        segv_here debugger' (with_machine (d m) (log (Fault addr) p))
    end.

(** [for (unsigned i = 0; i < sizeof(test_data); ++i)
       if (test_data[i] != i + TEST_DATA_ADJUST) return false;]
    as the index of the first bad byte, if any. *)
Fixpoint check_test_data (n i : nat) (mem : Z → Z) : option nat :=
  match n with
  | O => None
  | S n' =>
      if decide (mem (test_data + Z.of_nat i) ≠ Z.of_nat i + TEST_DATA_ADJUST)
      then Some i
      else check_test_data n' (S i) mem
  end.

Definition test_prep_and_segv (p : process) : result bool :=
  let m := p_machine p in
  let mem := seed_test_data TEST_MEMORY_SIZE 0 (m_mem m) in
  let p := log (Printf "About to segv") p in
  let p := with_machine {| m_regs := prep_regs (m_regs m); m_mem := mem |} p in
  match segv_here (p_debugger p) p with
  | Ret _ p =>
      match check_test_data TEST_MEMORY_SIZE 0 (m_mem (p_machine p)) with
      | Some _ => Ret false (log (SegvReturn false) p)
      | None => Ret true (log (SegvReturn true) p)
      end
  | Exit c p => Exit c p
  | Blocked p => Blocked p
  end.

(** [case MSG_CRASH:] the loop
    [for (int i = 0; i < NUM_SEGV_TRIES; ++i) if (!test_prep_and_segv()) exit(21);]
    with [n = NUM_SEGV_TRIES - i]. *)
Fixpoint segv_tries (n : nat) (p : process) : result unit :=
  match n with
  | O => Ret tt p
  | S n' =>
      match test_prep_and_segv p with
      | Ret true p => segv_tries n' p
      | Ret false p => Exit EXIT_BAD_RESUME_DATA p
      | Exit c p => Exit c p
      | Blocked p => Blocked p
      end
  end.

(** [case MSG_START_EXTRA_THREADS:] the loop creating the threads. *)
Fixpoint start_extra_threads (n : nat) (p : process) : process :=
  match n with
  | O => p
  | S n' => start_extra_threads n' (tu_thread_create_c11 "extra-thread" p)
  end.

(** The [switch (msg)] of [msg_loop]; the value returned is the new
    [my_done_tests]. *)
Definition dispatch (msg : message) (my_done_tests : bool) (p : process)
    : result bool :=
  match msg with
  | MSG_DONE => Ret true p
  | MSG_PING => Ret my_done_tests (send_msg MSG_PONG p)
  | MSG_CRASH =>
      match segv_tries NUM_SEGV_TRIES p with
      | Ret _ p => Ret my_done_tests (send_msg MSG_RECOVERED_FROM_CRASH p)
      | Exit c p => Exit c p
      | Blocked p => Blocked p
      end
  | MSG_START_EXTRA_THREADS =>
      let p := start_extra_threads NUM_EXTRA_THREADS p in
      Ret my_done_tests (send_msg MSG_EXTRA_THREADS_STARTED p)
  | _ => Ret my_done_tests (log (Printf "unknown message received") p)
  end.

(** [while (!done_tests && !my_done_tests) { ... }].  [inbox] is what the
    successive [recv_msg] calls deliver: [Some msg], or [None] when the
    call returns false; when nothing is left the call never returns.
    The value returned is that of [END_HELPER]. *)
Fixpoint msg_loop_from (inbox : list (option message)) (my_done_tests : bool)
    (p : process) : result bool :=
  if negb (done_tests (p_globals p)) && negb my_done_tests then
    match inbox with
    | [] => Blocked p
    | None :: _ => Ret false p      (* ASSERT_TRUE(recv_msg(pipe, &msg), ...) *)
    | Some msg :: inbox' =>
        match dispatch msg my_done_tests p with
        | Ret my_done_tests p => msg_loop_from inbox' my_done_tests p
        | Exit c p => Exit c p
        | Blocked p => Blocked p
        end
    end
  else Ret true p.

(** [bool my_done_tests = false; while ...] *)
Definition msg_loop (inbox : list (option message)) (p : process)
    : result bool :=
  msg_loop_from inbox false p.

(** [test_inferior]: it never returns to [main]. *)
Definition test_inferior (inbox : list (option message)) (p : process)
    : proc_end * process :=
  match msg_loop inbox p with
  | Ret false p => (Exited EXIT_MSG_LOOP_FAILED, p)
  | Ret true p =>
      let p := with_globals (store_done_tests true (p_globals p)) p in
      let p := log (Printf "Inferior done") p in
      (Exited EXIT_INFERIOR_DONE, p)
  | Exit c p => (Exited c, p)
  | Blocked p => (Hung, p)
  end.

End FaultGenerator.

(** A freshly started inferior: the flag has its initialiser's value and
    only the main thread exists. *)
Definition boot (m : machine) (mapped : Z → bool) (main_thread : Z)
    (debugger : list (machine → machine)) : process :=
  {| p_globals := initial_globals; p_machine := m; p_mapped := mapped;
     p_main_thread := main_thread; p_extra_threads := [];
     p_next_koid := main_thread + 1; p_debugger := debugger;
     p_trace := [] |}.

End Inferior.

(** ** Supervisor side: exception monitor, memory test, thread-list test *)

Module Supervisor.

(** Constants, macros and structure sizes of the magenta headers the test
    includes (syscalls/exception.h, syscalls/object.h). *)
Class Abi : Type := {
  MX_EXCP_GONE : Z;
  MX_EXCP_IS_ARCH : Z → bool;
  MX_OBJ_TYPE_THREAD : Z;
  sizeof_info_header : Z;             (* sizeof(mx_info_header_t) *)
  sizeof_record_process_thread : Z;   (* sizeof(mx_record_process_thread_t) *)
  sizeof_info_process_threads : Z;    (* sizeof(mx_info_process_threads_t) *)
  sizeof_info_handle_basic : Z        (* sizeof(mx_info_handle_basic_t) *)
}.

(** [mx_exception_packet_t], the two fields the test reads:
    [report.header.type] and [report.context.tid]. *)
Record packet : Type := {
  pkt_type : Z;
  pkt_tid : Z
}.

(** Register offsets passed to [get_uint64_register] / [set_uint64_register]:
    [offsetof(mx_x86_64_general_regs_t, r8)], [..., r9)], [..., rsp)], or
    [r[8]], [r[9]], [sp] of [mx_aarch64_general_regs_t]. *)
Inductive reg : Type := REG_R8 | REG_R9 | REG_SP.

(** What one call of [mx_object_get_info(.., MX_INFO_PROCESS_THREADS, ..)]
    leaves behind: status, [*actual] size, [hdr.count] and [rec[i].koid]. *)
Record threads_info : Type := {
  ti_status : Z;
  ti_size : Z;
  ti_count : nat;
  ti_koid : nat → Z
}.

(** The services the test calls, over a kernel state [K].  A call that can
    block for ever yields [None] when it does.  [read_inferior_memory]
    yields the returned length and the contents of the caller's buffer
    after the call. *)
Class Kernel (K : Type) : Type := {
  mx_port_wait : Z → K → option (Z * packet * K);
  mx_object_get_child : Z → Z → K → Z * Z * K;
  dump_inferior_regs : Z → K → K;
  get_uint64_register : Z → reg → K → Z * K;
  set_uint64_register : Z → reg → Z → K → K;
  read_inferior_memory : Z → Z → nat → K → Z * (nat → Z) * K;
  write_inferior_memory : Z → Z → list Z → K → Z * K;
  mx_task_resume : Z → K → Z * K;
  tu_handle_close : Z → K → K;
  setup_inferior : string → K → option (Z * Z * Z) * K;
  send_msg : Z → message → K → K;
  recv_msg : Z → K → option (option message * K);
  shutdown_inferior : Z → Z → Z → K → bool * K;
  mx_object_get_info_process_threads : Z → Z → K → threads_info * K;
  mx_object_get_info_handle_basic : Z → K → Z * Z * K
}.

Inductive event : Type :=
| PortWait (eport status type tid : Z)
| GetChild (parent koid status handle : Z)
| DumpRegs (thread : Z)
| GetReg (thread : Z) (r : reg) (value : Z)
| SetReg (thread : Z) (r : reg) (value : Z)
| ReadMem (proc addr : Z) (len : nat) (ssize : Z)
| WriteMem (proc addr : Z) (data : list Z) (ssize : Z)
| Resume (thread status : Z)
| Close (thread : Z)
| Setup (ok : bool)
| SendMsg (pipe : Z) (m : message)
| RecvMsg (pipe : Z) (m : option message)
| Shutdown (ok : bool)
| ThreadsInfo (proc status size : Z) (count : nat)
| HandleInfo (handle size type : Z)
| Failure (msg : string).       (* a failed EXPECT_ or ASSERT_ *)

(** Kernel state, the [all_ok] of the current test, and what was done. *)
Record world (K : Type) : Type := {
  kern : K;
  all_ok : bool;
  trace : list event
}.
Arguments kern {K} w.
Arguments all_ok {K} w.
Arguments trace {K} w.

(** A function body runs to its end, or leaves through a failed [ASSERT_]
    or [return false], or blocks. *)
Inductive outcome (K A : Type) : Type :=
| Done (a : A) (w : world K)
| Failed (w : world K)
| Stuck (w : world K).
Arguments Done {K A} a w.
Arguments Failed {K A} w.
Arguments Stuck {K A} w.

Definition M (K A : Type) : Type := world K → outcome K A.

Definition ret {K A} (a : A) : M K A := λ w, Done a w.

Definition bind {K A B} (m : M K A) (f : A → M K B) : M K B :=
  λ w, match m w with
       | Done a w' => f a w'
       | Failed w' => Failed w'
       | Stuck w' => Stuck w'
       end.

#[global] Instance M_ret {K} : MRet (M K) := λ A, ret.
#[global] Instance M_bind {K} : MBind (M K) := λ A B f m, bind m f.

Definition final {K A} (o : outcome K A) : world K :=
  match o with Done _ w | Failed w | Stuck w => w end.

(** The value a function body ends with, if it reaches its end. *)
Definition completed {K A} (o : outcome K A) : option A :=
  match o with Done a _ => Some a | _ => None end.

Definition fail {K} (msg : string) (w : world K) : world K :=
  {| kern := kern w; all_ok := false; trace := trace w ++ [Failure msg] |}.

(** A kernel call with a result, and one without. *)
Definition sys {K A} (f : K → A * K) (ev : A → event) : M K A :=
  λ w, let '(a, k) := f (kern w) in
       Done a {| kern := k; all_ok := all_ok w; trace := trace w ++ [ev a] |}.

Definition sys_ {K} (f : K → K) (ev : event) : M K unit :=
  λ w, Done tt {| kern := f (kern w); all_ok := all_ok w;
                  trace := trace w ++ [ev] |}.

(** Modelled from the spec: the [EXPECT_*] macros of unittest.h record a
    failure and let the test go on (section 7, "reported as assertion
    failures, not crashes"): on failure print, clear [all_ok], continue. *)
Definition EXPECT {K} (cond : bool) (msg : string) : M K unit :=
  λ w, if cond then Done tt w else Done tt (fail msg w).

(** Modelled from the spec: the [ASSERT_*] macros of unittest.h are the
    fatal assertions of section 7, and debugger.c says of them "does a
    return on failure": on failure print, clear [all_ok], [return false]. *)
Definition ASSERT {K} (cond : bool) (msg : string) : M K unit :=
  λ w, if cond then Done tt w else Failed (fail msg w).

(** A bare [return false;]. *)
Definition return_false {K A} : M K A := λ w, Failed w.

(** Modelled from the spec: [BEGIN_TEST] and [END_TEST] of unittest.h
    open a test case with [all_ok] set and return it at the end
    (section 7, "recorded and cause that case to report failure"). *)
Definition BEGIN_TEST {K} : M K unit :=
  λ w, Done tt {| kern := kern w; all_ok := true; trace := trace w |}.
Definition END_TEST {K} : M K bool := λ w, Done (all_ok w) w.

Inductive loop_ctl : Type := Continue | Break.

(** Classes of events, and how many of a class a trace holds. *)
Definition is_wait (e : event) : bool :=
  match e with PortWait _ _ _ _ => true | _ => false end.
Definition is_resumed (e : event) : bool :=
  match e with Resume _ status => bool_decide (status = NO_ERROR) | _ => false end.
Definition is_read (e : event) : bool :=
  match e with ReadMem _ _ _ _ => true | _ => false end.
Definition is_write (e : event) : bool :=
  match e with WriteMem _ _ _ _ => true | _ => false end.
Definition is_failure (e : event) : bool :=
  match e with Failure _ => true | _ => false end.

Definition count (f : event → bool) (tr : list event) : nat :=
  length (List.filter f tr).

(** What a check adds to the trace. *)
Definition expected (cond : bool) (msg : string) : list event :=
  if cond then [] else [Failure msg].

Section Code.
Context `{Abi} `{Kernel K}.

(** [for (unsigned i = 0; i < sizeof(test_data); ++i)
       EXPECT_EQ(test_data[i], i, "test_memory_ops");] *)
Fixpoint expect_seed (n i : nat) (test_data : nat → Z) : M K unit :=
  match n with
  | O => mret tt
  | S n' =>
      EXPECT (bool_decide (test_data i = Z.of_nat i)) "test_memory_ops";;
      expect_seed n' (S i) test_data
  end.

(** Whether the checks of [expect_seed] all hold, and what they add to
    the trace. *)
Fixpoint seed_ok (n i : nat) (test_data : nat → Z) : bool :=
  match n with
  | O => true
  | S n' => bool_decide (test_data i = Z.of_nat i) && seed_ok n' (S i) test_data
  end.

Fixpoint seed_events (n i : nat) (test_data : nat → Z) : list event :=
  match n with
  | O => []
  | S n' =>
      expected (bool_decide (test_data i = Z.of_nat i)) "test_memory_ops"
      ++ seed_events n' (S i) test_data
  end.

(** [for (unsigned i = 0; i < sizeof(test_data); ++i)
       test_data[i] += TEST_DATA_ADJUST;] on [uint8_t] elements; the
    result is the array as the bytes handed to the write. *)
Definition adjust (test_data : nat → Z) : list Z :=
  (λ i, (test_data i + TEST_DATA_ADJUST) `mod` 256) <$> seq 0 TEST_MEMORY_SIZE.

Definition test_memory_ops (inferior thread : Z) : M K unit :=
  test_data_addr ← sys (get_uint64_register thread REG_R9) (GetReg thread REG_R9);
  '(ssize, test_data) ←
    sys (read_inferior_memory inferior test_data_addr TEST_MEMORY_SIZE)
        (λ r, ReadMem inferior test_data_addr TEST_MEMORY_SIZE r.1);
  EXPECT (bool_decide (ssize = Z.of_nat TEST_MEMORY_SIZE))
         "read_inferior_memory: short read";;
  expect_seed TEST_MEMORY_SIZE 0 test_data;;
  let test_data := adjust test_data in
  ssize ← sys (write_inferior_memory inferior test_data_addr test_data)
              (WriteMem inferior test_data_addr test_data);
  EXPECT (bool_decide (ssize = Z.of_nat TEST_MEMORY_SIZE))
         "write_inferior_memory: short write".

Definition fix_inferior_segv (thread : Z) : M K unit :=
  rsp ← sys (get_uint64_register thread REG_SP) (GetReg thread REG_SP);
  sys_ (set_uint64_register thread REG_R8 rsp) (SetReg thread REG_R8 rsp).

(** [mx_port_wait(eport, MX_TIME_INFINITE, &packet, sizeof(packet))] *)
Definition port_wait (eport : Z) : M K (Z * packet) :=
  λ w, match mx_port_wait eport (kern w) with
       | None => Stuck w
       | Some (status, pkt, k) =>
           Done (status, pkt)
             {| kern := k; all_ok := all_ok w;
                trace := trace w ++ [PortWait eport status (pkt_type pkt) (pkt_tid pkt)] |}
       end.

(** The body of the [for] loop of [wait_inferior_thread_worker]. *)
Definition worker_iteration (inferior eport : Z) : M K loop_ctl :=
  '(status, packet) ← port_wait eport;
  ASSERT (bool_decide (status = NO_ERROR)) "mx_io_port_wait failed";;
  if bool_decide (pkt_type packet = MX_EXCP_GONE) then mret Break
  else
    (if MX_EXCP_IS_ARCH (pkt_type packet) then mret tt
     else ASSERT false "wait-inf: unexpected exception type");;
    let tid := pkt_tid packet in
    '(status, thread) ←
      sys (mx_object_get_child inferior tid)
          (λ r, GetChild inferior tid r.1 r.2);
    ASSERT (bool_decide (status = 0)) "mx_debug_task_get_child failed";;
    sys_ (dump_inferior_regs thread) (DumpRegs thread);;
    test_memory_ops inferior thread;;
    fix_inferior_segv thread;;
    status ← sys (mx_task_resume thread) (Resume thread);
    sys_ (tu_handle_close thread) (Close thread);;
    ASSERT (bool_decide (status = NO_ERROR)) "mx_task_resume failed";;
    mret Continue.

(** [for (i = 0; i < NUM_SEGV_TRIES; ++i) { ... }] with
    [n = NUM_SEGV_TRIES - i]; the value is [i] when the loop is left. *)
Fixpoint segv_loop (inferior eport : Z) (n i : nat) : M K nat :=
  match n with
  | O => mret i
  | S n' =>
      c ← worker_iteration inferior eport;
      match c with
      | Break => mret i
      | Continue => segv_loop inferior eport n' (S i)
      end
  end.

Definition wait_inferior_thread_worker (inferior eport : Z) : M K bool :=
  i ← segv_loop inferior eport NUM_SEGV_TRIES 0;
  ASSERT (bool_decide (i = NUM_SEGV_TRIES)) "segv tests terminated prematurely";;
  mret true.

(** [for (uint32_t i = 0; i < num_threads; ++i) { ... }] of
    [debugger_thread_list_test], with [n = num_threads - i]. *)
Fixpoint verify_entries (inferior : Z) (rec : nat → Z) (n i : nat) : M K unit :=
  match n with
  | O => mret tt
  | S n' =>
      let koid := rec i in
      '(status, thread) ←
        sys (mx_object_get_child inferior koid)
            (λ r, GetChild inferior koid r.1 r.2);
      EXPECT (bool_decide (status = 0)) "mx_debug_task_get_child failed";;
      '(size, type) ←
        sys (mx_object_get_info_handle_basic thread)
            (λ r, HandleInfo thread r.1 r.2);
      EXPECT (bool_decide (size = sizeof_info_handle_basic))
             "mx_object_get_info failed";;
      EXPECT (bool_decide (type = MX_OBJ_TYPE_THREAD)) "not a thread";;
      verify_entries inferior rec n' (S i)
  end.


(** [recv_msg(pipe, &msg)] as the test uses it:
    [if (!recv_msg(pipe, &msg)) return false;] *)
Definition recv_or_return (pipe : Z) : M K message :=
  λ w, match recv_msg pipe (kern w) with
       | None => Stuck w
       | Some (None, k) =>
           Failed {| kern := k; all_ok := all_ok w;
                     trace := trace w ++ [RecvMsg pipe None] |}
       | Some (Some m, k) =>
           Done m {| kern := k; all_ok := all_ok w;
                     trace := trace w ++ [RecvMsg pipe (Some m)] |}
       end.

Definition debugger_thread_list_test : M K bool :=
  BEGIN_TEST;;
  setup ← sys (setup_inferior "inferior") (λ r, Setup (bool_decide (is_Some r)));
  match setup with
  | None => return_false
  | Some (pipe, inferior, eport) =>
      sys_ (send_msg pipe MSG_START_EXTRA_THREADS)
           (SendMsg pipe MSG_START_EXTRA_THREADS);;
      msg ← recv_or_return pipe;
      EXPECT (bool_decide (msg = MSG_EXTRA_THREADS_STARTED))
             "unexpected response when starting extra threads";;
      let buf_size :=
        sizeof_info_process_threads + 100 * sizeof_record_process_thread in
      info ← sys (mx_object_get_info_process_threads inferior buf_size)
                 (λ r, ThreadsInfo inferior (ti_status r) (ti_size r) (ti_count r));
      ASSERT (bool_decide (ti_status info = NO_ERROR)) EmptyString;;
      ASSERT (bool_decide
                (ti_size info >=
                 sizeof_info_header
                 + (1 + Z.of_nat NUM_EXTRA_THREADS) * sizeof_record_process_thread))
             "mx_object_get_info failed";;
      let num_threads := ti_count info in
      verify_entries inferior (ti_koid info) num_threads 0;;
      ok ← sys (shutdown_inferior pipe inferior eport) Shutdown;
      if (ok : bool) then (END_TEST : M K bool) else return_false
  end.

End Code.

End Supervisor.

(** ** A simulated kernel

    The kernel services of section 6 of the design document and the
    helpers of utils.c built on them are not part of debugger.c; this
    module gives them one concrete meaning, for one inferior process whose
    main thread is the one that faults. *)

Module Sim.

Import Supervisor.

(** Modelled from the spec: notification kinds are "architectural fault"
    or "process gone" (section 3); the values are in the style of the
    magenta headers, architectural types being the small ones and "gone"
    a synthetic one above them. *)
#[global] Instance abi : Abi := {|
  MX_EXCP_GONE := 101;
  MX_EXCP_IS_ARCH := λ t, bool_decide (t ≤ 99);
  MX_OBJ_TYPE_THREAD := 2;
  sizeof_info_header := 16;
  sizeof_record_process_thread := 8;
  sizeof_info_process_threads := 16;
  sizeof_info_handle_basic := 40
|}.

Definition MX_EXCP_FATAL_PAGE_FAULT : Z := 1.
Definition ERR_NOT_FOUND : Z := -3.

Definition PIPE : Z := 11.
Definition INFERIOR : Z := 12.
Definition EPORT : Z := 13.

(** [proc] is the inferior; [port] the packets queued on its exception
    port; [received] how many of the messages the inferior sent have been
    read from the channel; [test_data] where the inferior's test buffer
    lives; [junk] the bytes an uninitialised supervisor buffer holds. *)
Record state : Type := {
  proc : Inferior.process;
  port : list packet;
  received : nat;
  test_data : Z;
  junk : nat → Z
}.

Definition with_proc (p : Inferior.process) (k : state) : state :=
  {| proc := p; port := port k; received := received k;
     test_data := test_data k; junk := junk k |}.

Definition with_regs (r : Inferior.regs) (k : state) : state :=
  with_proc
    (Inferior.with_machine
       {| Inferior.m_regs := r;
          Inferior.m_mem := Inferior.m_mem (Inferior.p_machine (proc k)) |}
       (proc k)) k.

Definition with_mem (mem : Z → Z) (k : state) : state :=
  with_proc
    (Inferior.with_machine
       {| Inferior.m_regs := Inferior.m_regs (Inferior.p_machine (proc k));
          Inferior.m_mem := mem |}
       (proc k)) k.

Definition regs_of (k : state) : Inferior.regs :=
  Inferior.m_regs (Inferior.p_machine (proc k)).
Definition mem_of (k : state) : Z → Z :=
  Inferior.m_mem (Inferior.p_machine (proc k)).

(** How many of the [n] bytes from [addr] can be transferred. *)
Fixpoint transfer_len (mapped : Z → bool) (addr : Z) (n : nat) : nat :=
  match n with
  | O => O
  | S n' => if mapped addr then S (transfer_len mapped (addr + 1) n') else O
  end.

Fixpoint store_bytes (addr : Z) (bs : list Z) (mem : Z → Z) : Z → Z :=
  match bs with
  | [] => mem
  | b :: bs' => store_bytes (addr + 1) bs' (<[addr := b]> mem)
  end.

(** Modelled from the spec: blocking-wait-on-port (section 6) delivers
    the oldest queued notification, and blocks while there is none. *)
Definition sim_port_wait (eport : Z) (k : state) : option (Z * packet * state) :=
  match port k with
  | [] => None
  | pkt :: rest =>
      Some (NO_ERROR, pkt,
            {| proc := proc k; port := rest; received := received k;
               test_data := test_data k; junk := junk k |})
  end.

(** Modelled from the spec: get-child-thread-by-identifier (section 6)
    succeeds exactly for the ids of the process's threads. *)
Definition sim_get_child (parent koid : Z) (k : state) : Z * Z * state :=
  if bool_decide (koid ∈ Inferior.threads (proc k))
  then (NO_ERROR, koid, k)
  else (ERR_NOT_FOUND, 0, k).

(** Modelled from the spec: [read_registers] and [write_register] of
    section 4.4, on the suspended thread. *)
Definition sim_get_reg (thread : Z) (r : reg) (k : state) : Z * state :=
  (match r with
   | REG_R8 => Inferior.r8 (regs_of k)
   | REG_R9 => Inferior.r9 (regs_of k)
   | REG_SP => Inferior.rsp (regs_of k)
   end, k).

Definition sim_set_reg (thread : Z) (r : reg) (v : Z) (k : state) : state :=
  let rs := regs_of k in
  with_regs
    (match r with
     | REG_R8 => {| Inferior.r8 := v; Inferior.r9 := Inferior.r9 rs;
                    Inferior.rax := Inferior.rax rs; Inferior.rsp := Inferior.rsp rs |}
     | REG_R9 => {| Inferior.r8 := Inferior.r8 rs; Inferior.r9 := v;
                    Inferior.rax := Inferior.rax rs; Inferior.rsp := Inferior.rsp rs |}
     | REG_SP => {| Inferior.r8 := Inferior.r8 rs; Inferior.r9 := Inferior.r9 rs;
                    Inferior.rax := Inferior.rax rs; Inferior.rsp := v |}
     end) k.

(** Modelled from the spec: [read_memory(process, address, length) ->
    bytes | short-read] of section 4.4.  The transfer stops at the first
    unmapped byte and the length done is returned; the rest of the
    caller's buffer keeps what it held. *)
Definition sim_read_memory (process addr : Z) (len : nat) (k : state)
    : Z * (nat → Z) * state :=
  let n := transfer_len (Inferior.p_mapped (proc k)) addr len in
  (Z.of_nat n,
   λ i, if decide (i < n)%nat then mem_of k (addr + Z.of_nat i) else junk k i,
   k).

(** Modelled from the spec: [write_memory(process, address, bytes) ->
    bytes-written | short-write] of section 4.4, stopping at the first
    unmapped byte. *)
Definition sim_write_memory (process addr : Z) (data : list Z) (k : state)
    : Z * state :=
  let n := transfer_len (Inferior.p_mapped (proc k)) addr (length data) in
  (Z.of_nat n, with_mem (store_bytes addr (take n data) (mem_of k)) k).

(** Modelled from the spec: the control channel is FIFO and strictly
    request then response (section 4.2); a message sent to the inferior is
    handled by the [switch] of its message loop at once, and what the
    inferior sent is received in order. *)
Definition sim_send_msg (pipe : Z) (m : message) (k : state) : state :=
  with_proc (Inferior.final (Inferior.dispatch (test_data k) m false (proc k))) k.

Definition sim_recv_msg (pipe : Z) (k : state) : option (option message * state) :=
  match Inferior.sent (Inferior.p_trace (proc k)) !! received k with
  | None => None
  | Some m =>
      Some (Some m,
            {| proc := proc k; port := port k; received := S (received k);
               test_data := test_data k; junk := junk k |})
  end.

(** Modelled from the spec: enumerate-process-threads (section 6) returns
    a header and one record per thread of the process, as many as fit in
    the buffer. *)
Definition sim_threads_info (process buf_size : Z) (k : state)
    : threads_info * state :=
  let ths := Inferior.threads (proc k) in
  let capacity :=
    Z.to_nat ((buf_size - sizeof_info_process_threads)
              `div` sizeof_record_process_thread) in
  let count := min (length ths) capacity in
  ({| ti_status := NO_ERROR;
      ti_size := sizeof_info_header
                 + Z.of_nat count * sizeof_record_process_thread;
      ti_count := count;
      ti_koid := λ i, default 0 (ths !! i) |}, k).

(** Modelled from the spec: get-thread-basic-info (section 6) reports the
    object kind of a handle, "thread" for a thread of the process. *)
Definition sim_handle_basic (handle : Z) (k : state) : Z * Z * state :=
  if bool_decide (handle ∈ Inferior.threads (proc k))
  then (sizeof_info_handle_basic, MX_OBJ_TYPE_THREAD, k)
  else (0, 0, k).

(** Modelled from the spec: the services of section 6 together;
    resume-from-exception and handle release always succeed, and
    [shutdown(inferior)] of section 4.1 sends the termination message. *)
#[global] Instance kernel : Kernel state := {|
  mx_port_wait := sim_port_wait;
  mx_object_get_child := sim_get_child;
  dump_inferior_regs := λ _ k, k;
  get_uint64_register := sim_get_reg;
  set_uint64_register := sim_set_reg;
  read_inferior_memory := sim_read_memory;
  write_inferior_memory := sim_write_memory;
  mx_task_resume := λ _ k, (NO_ERROR, k);
  tu_handle_close := λ _ k, k;
  setup_inferior := λ _ k, (Some (PIPE, INFERIOR, EPORT), k);
  send_msg := sim_send_msg;
  recv_msg := sim_recv_msg;
  shutdown_inferior := λ pipe _ _ k, (true, sim_send_msg pipe MSG_DONE k);
  mx_object_get_info_process_threads := sim_threads_info;
  mx_object_get_info_handle_basic := sim_handle_basic
|}.

(** The kernel with a thread of [p] suspended in an exception: the packet
    for it is on the port. *)
Definition suspended (p : Inferior.process) (test_data : Z) (junk : nat → Z)
    : state :=
  {| proc := p;
     port := [{| pkt_type := MX_EXCP_FATAL_PAGE_FAULT;
                 pkt_tid := Inferior.p_main_thread p |}];
     received := 0; test_data := test_data; junk := junk |}.


Definition fresh (k : state) : world state :=
  {| kern := k; all_ok := true; trace := [] |}.

(** The supervisor as the inferior's debugger: one pass through the body
    of the exception-monitor loop for a thread suspended in state [m]. *)
Definition monitor (p : Inferior.process) (test_data : Z) (junk : nat → Z)
    : Inferior.machine → Inferior.machine :=
  λ m,
    Inferior.p_machine
      (proc (kern (final (worker_iteration INFERIOR EPORT
         (fresh (suspended (Inferior.with_machine m p) test_data junk)))))).

End Sim.

(** ** The program entry point *)

Module Driver.

(** What a run depends on.  [env_tests]: [Some (success, t)] when
    [unittest_run_all_tests] returns [success] and [main] stores the flag
    after the watchdog has polled it [t] times; [None] when the process
    ends before [main] gets there.  The other fields describe the process
    when it is started as a child. *)
Record environment : Type := {
  env_tests : option (bool * nat);
  env_machine : Inferior.machine;
  env_mapped : Z → bool;
  env_main_thread : Z;
  env_debugger : list (Inferior.machine → Inferior.machine);
  env_test_data : Z;
  env_inbox : list (option message);
  env_segfault_value : Z
}.

(** The address [crashing_ptr] is initialised to: 42. *)
Definition crashing_ptr : Z := 42.

(** [test_segfault]: the call chain ends in [*crashing_ptr = x[0]]; if
    that store does not fault the chain returns a value. *)
Definition test_segfault (env : environment) : proc_end :=
  if Inferior.mapped_range (env_mapped env) crashing_ptr 4
  then Exited (env_segfault_value env)
  else Crashed.

(** [argc >= 2 && strcmp(argv[1], name) == 0] *)
Definition is_child (argv : list string) (name : string) : bool :=
  bool_decide (argv !! 1%nat = Some name).

(** The part of [main] after the child roles: start the watchdog, run
    the tests, store the flag, join the watchdog. *)
Definition run_tests_under_watchdog (tests : option (bool * nat))
    : proc_end * globals :=
  let g := initial_globals in
  match tests with
  | None =>
      match (Watchdog.watchdog_thread_func (λ _, done_tests g)).1 with
      | ProcessExit code => (Exited code, g)
      | ThreadExit => (Hung, g)
      end
  | Some (success, t) =>
      let g' := store_done_tests true g in
      let seen (i : nat) :=
        if decide (t ≤ i)%nat then done_tests g' else done_tests g in
      match (Watchdog.watchdog_thread_func seen).1 with
      | ProcessExit code => (Exited code, g')
      | ThreadExit =>
          (Exited (if success then EXIT_DRIVER_OK else EXIT_DRIVER_FAILED), g')
      end
  end.

Definition main (argv : list string) (env : environment) : proc_end * globals :=
  if is_child argv "inferior" then
    let p := Inferior.boot (env_machine env) (env_mapped env)
               (env_main_thread env) (env_debugger env) in
    let '(e, p) := Inferior.test_inferior (env_test_data env) (env_inbox env) p in
    (e, Inferior.p_globals p)
  else if is_child argv "segfault" then
    (test_segfault env, initial_globals)
  else
    run_tests_under_watchdog (env_tests env).

End Driver.

(** ** Concrete runs

    A small inferior: the pages 900..1099 are mapped (the stack), the
    stack pointer is 960 and the test buffer sits at 984; thread id 5. *)

Module Example.

Import Inferior.

Definition machine0 : machine :=
  {| m_regs := {| r8 := 7; r9 := 9; rax := 1; rsp := 960 |};
     m_mem := λ _, 0 |}.

Definition mapped0 : Z → bool := λ a, bool_decide (900 ≤ a < 1100).

Definition buffer0 : Z := 984.

Definition junk0 : nat → Z := λ _, 77.

Definition process0 : process := boot machine0 mapped0 5 [].

(** The supervisor of this file as debugger, and one that repairs the
    faulting register but leaves the buffer alone. *)
Definition good_debugger : machine → machine :=
  Sim.monitor process0 buffer0 junk0.

Definition lazy_debugger : machine → machine :=
  λ m, {| m_regs := {| r8 := rsp (m_regs m); r9 := r9 (m_regs m);
                       rax := rax (m_regs m); rsp := rsp (m_regs m) |};
          m_mem := m_mem m |}.

Definition monitored : process :=
  with_debugger [good_debugger; good_debugger; good_debugger; good_debugger]
    process0.

Definition neglected : process :=
  with_debugger [good_debugger; lazy_debugger; good_debugger; good_debugger]
    process0.

(** Kernel states with chosen packets on the exception port. *)
Definition with_packets (pkts : list Supervisor.packet) : Sim.state :=
  {| Sim.proc := process0; Sim.port := pkts; Sim.received := 0;
     Sim.test_data := buffer0; Sim.junk := junk0 |}.

Definition fault_packet : Supervisor.packet :=
  {| Supervisor.pkt_type := Sim.MX_EXCP_FATAL_PAGE_FAULT; Supervisor.pkt_tid := 5 |}.
Definition gone_packet : Supervisor.packet :=
  {| Supervisor.pkt_type := 101; Supervisor.pkt_tid := 5 |}.
Definition start_packet : Supervisor.packet :=
  {| Supervisor.pkt_type := 100; Supervisor.pkt_tid := 5 |}.
Definition stray_packet : Supervisor.packet :=
  {| Supervisor.pkt_type := Sim.MX_EXCP_FATAL_PAGE_FAULT; Supervisor.pkt_tid := 999 |}.

(** An environment for [main]: as a child it is sent a ping and then the
    request to finish; as the driver its tests pass while the watchdog is
    in its fourth tick. *)
Definition environment0 : Driver.environment :=
  {| Driver.env_tests := Some (true, 3%nat);
     Driver.env_machine := machine0;
     Driver.env_mapped := mapped0;
     Driver.env_main_thread := 5;
     Driver.env_debugger := [];
     Driver.env_test_data := buffer0;
     Driver.env_inbox := [Some MSG_PING; Some MSG_DONE];
     Driver.env_segfault_value := 0 |}.

End Example.

(** ** More of debugger.c: what the traces say, the segfault child, the
    verbosity argument *)

(** Readings of a supervisor trace. *)
Module Handles.

Import Supervisor.

(** The handles successful lookups returned, the handles closed, resumed,
    and given a new [r8], each in order. *)
Definition opened (tr : list event) : list Z :=
  omap (λ e, match e with
             | GetChild _ _ status h =>
                 if bool_decide (status = 0) then Some h else None
             | _ => None
             end) tr.
Definition closed (tr : list event) : list Z :=
  omap (λ e, match e with Close h => Some h | _ => None end) tr.
Definition resumed (tr : list event) : list Z :=
  omap (λ e, match e with Resume h _ => Some h | _ => None end) tr.
Definition repaired (tr : list event) : list Z :=
  omap (λ e, match e with SetReg h REG_R8 _ => Some h | _ => None end) tr.

(** No failed check in the trace. *)
Definition clean (tr : list event) : bool :=
  forallb (λ e, negb (is_failure e)) tr.

Definition is_lookup (e : event) : bool :=
  match e with GetChild _ _ _ _ => true | _ => false end.
Definition is_info (e : event) : bool :=
  match e with HandleInfo _ _ _ => true | _ => false end.
Definition is_close (e : event) : bool :=
  match e with Close _ => true | _ => false end.

(** From [w] to [w'] the trace grew by events in which every handle a
    successful lookup returned was read from, written to, repaired,
    resumed and closed, once each and in that order of handles, and
    [all_ok] survived exactly when no check failed. *)
Definition balanced {K} (w w' : world K) : Prop :=
  ∃ d,
    trace w' = trace w ++ d
    ∧ closed d = opened d ∧ resumed d = opened d ∧ repaired d = opened d
    ∧ count is_read d = length (opened d)
    ∧ count is_write d = length (opened d)
    ∧ all_ok w' = all_ok w && clean d.

End Handles.

(** Readings of an inferior trace and of its inbox. *)
Module Protocol.

Import Inferior.

(** The reply [msg_loop] owes to a message, if any. *)
Definition reply (m : message) : option message :=
  match m with
  | MSG_PING => Some MSG_PONG
  | MSG_CRASH => Some MSG_RECOVERED_FROM_CRASH
  | MSG_START_EXTRA_THREADS => Some MSG_EXTRA_THREADS_STARTED
  | _ => None
  end.

(** The messages of an inbox that come before the first [MSG_DONE] and
    the first failed receive. *)
Fixpoint served (inbox : list (option message)) : list message :=
  match inbox with
  | Some MSG_DONE :: _ => []
  | Some m :: rest => m :: served rest
  | _ => []
  end.

(** The addresses of the exceptions raised in a trace. *)
Definition faults (tr : list event) : list Z :=
  omap (λ e, match e with Fault addr => Some addr | _ => None end) tr.

End Protocol.

(** Readings of the watchdog's actions. *)
Module Clock.

Import Watchdog.

(** Nanoseconds slept, and number of reads of the flag. *)
Definition slept (acts : list action) : Z :=
  foldr (λ a t, match a with Sleep d => d + t | _ => t end) 0 acts.
Definition polls (acts : list action) : nat :=
  length (List.filter (λ a, match a with Poll _ _ => true | _ => false end) acts).
Definition fired (acts : list action) : bool :=
  existsb (λ a, match a with Fired => true | _ => false end) acts.

End Clock.

(** The segfault child: [test_segfault] and the three functions under it,
    down to the store through [crashing_ptr].  What follows the store
    (an exception, or the returns) is [Driver.test_segfault]. *)
Module Segfault.

(** [#define TEST_SEGFAULT_DEPTH 4] and [int leaf_stack_size = 10;] *)
Definition TEST_SEGFAULT_DEPTH : nat := 4.
Definition leaf_stack_size : Z := 10.

(** A 32-bit pattern as an [int]. *)
Definition to_int (z : Z) : Z := (z + 2 ^ 31) `mod` 2 ^ 32 - 2 ^ 31.

(** [int use_stack[n]; memset(use_stack, 0x99, n * sizeof(int));] as bytes,
    and [use_stack[i]]. *)
Definition memset_use_stack (n : nat) : list Z := replicate (n * 4) 153.
Definition int_at (bytes : list Z) (i : nat) : Z :=
  to_int (Inferior.le_combine (take 4 (drop (4 * i) bytes))).

(** The frames of the call chain.  [Doit1 (Some bytes)] has the array
    [use_stack] with these bytes, [Doit1 None] is the call that goes on
    to the leaf; [Leaf n] has the array [x[n]]. *)
Inductive frame : Type :=
| Doit1 (use_stack : option (list Z))
| Doit2
| Leaf (n : Z)
| Top.

(** The store [*crashing_ptr = x[0]]: address, value, the call stack at
    that point (innermost first) and the value of [crash_depth]. *)
Record store : Type := {
  st_addr : Z;
  st_value : Z;
  st_stack : list frame;
  st_crash_depth : nat
}.

(** [test_segfault_leaf(n, p)]: [x[0] = *p; *crashing_ptr = x[0];].  A
    pointer to [int] is only ever read through, and what it points to is
    not written after the call, so it is represented by that [int]. *)
Definition test_segfault_leaf (n : Z) (p : Z) (crash_depth : nat)
    (stack : list frame) : store :=
  {| st_addr := Driver.crashing_ptr; st_value := p;
     st_stack := Leaf n :: stack; st_crash_depth := crash_depth |}.

(** [test_segfault_doit1(p)], with [test_segfault_doit2] in its place:
    [if (crash_depth > 0) { int n = crash_depth; int use_stack[n]; memset;
    --crash_depth; return test_segfault_doit2(use_stack) + 99; }
    return test_segfault_leaf(leaf_stack_size, p) + 99;] where
    [test_segfault_doit2(p)] is [return test_segfault_doit1(p) + *p;]. *)
Fixpoint test_segfault_doit1 (crash_depth : nat) (p : Z) (stack : list frame)
    : store :=
  match crash_depth with
  | S crash_depth' =>
      let n := crash_depth in
      let use_stack := memset_use_stack n in
      let stack := Doit1 (Some use_stack) :: stack in
      (* test_segfault_doit2(use_stack) *)
      test_segfault_doit1 crash_depth' (int_at use_stack 0) (Doit2 :: stack)
  | O =>
      test_segfault_leaf leaf_stack_size p O (Doit1 None :: stack)
  end.

Definition test_segfault_doit2 (crash_depth : nat) (p : Z) (stack : list frame)
    : store :=
  test_segfault_doit1 crash_depth p (Doit2 :: stack).

(** [crash_depth = TEST_SEGFAULT_DEPTH; int i = 0;
    return test_segfault_doit1(&i);] *)
Definition test_segfault : store :=
  test_segfault_doit1 TEST_SEGFAULT_DEPTH 0 [Top].

(** The sizes of the [use_stack] arrays on a call stack, in [int]s,
    outermost first. *)
Definition use_stack_sizes (stack : list frame) : list nat :=
  rev (omap (λ f, match f with
                  | Doit1 (Some bytes) => Some (length bytes `div` 4)%nat
                  | _ => None
                  end) stack).

End Segfault.

(** [check_verbosity]. *)
Module Verbosity.

Section Atoi.

(** [atoi] of the C library. *)
Variable atoi : string → Z.

(** [strncmp(arg, "v=", 2) == 0], and then [arg + 2]. *)
Definition level_text (arg : string) : option string :=
  match arg with
  | String "v"%char (String "="%char rest) => Some rest
  | _ => None
  end.

(** [for (int i = 1; i < argc; ++i) if (strncmp(argv[i], "v=", 2) == 0)
    { unittest_set_verbosity_level(atoi(argv[i] + 2)); break; }] over
    [argv[i ..]]; the value is the level set, if any. *)
Fixpoint scan (args : list string) : option Z :=
  match args with
  | [] => None
  | arg :: rest =>
      match level_text arg with
      | Some text => Some (atoi text)
      | None => scan rest
      end
  end.

Definition check_verbosity (argv : list string) : option Z :=
  scan (tail argv).

End Atoi.

End Verbosity.

(** More concrete inputs. *)
Module Samples.

Import Inferior.

(** An address space in which the null page is mapped too. *)
Definition mapped_low : Z → bool := λ a, bool_decide (0 ≤ a < 1100).

Definition unguarded : process :=
  boot Example.machine0 mapped_low 5 [Example.good_debugger].

(** A thread suspended with its buffer register pointing at the buffer,
    whose last byte is 250. *)
Definition suspended0 : machine :=
  {| m_regs := {| r8 := 0; r9 := 984; rax := 1; rsp := 960 |};
     m_mem := λ a, if bool_decide (a = 991) then 250 else 3 |}.

End Samples.

(** * Properties *)

(** ** Watchdog *)

Section WatchdogFacts.
Import Watchdog.
Variable done_tests_at : nat → bool.

Lemma tick_loop_seen n i k acts :
  (k < n)%nat →
  (∀ j, (j < k)%nat → done_tests_at (i + j)%nat = false) →
  done_tests_at (i + k)%nat = true →
  tick_loop n i done_tests_at acts =
    (ThreadExit,
     acts ++ idle_ticks k i ++ [Sleep WATCHDOG_DURATION_TICK; Poll (i + k) true]).
Proof.
  revert i k acts. induction n as [|n IH]; intros i k acts Hk Hfalse Htrue; [lia|].
  destruct k as [|k]; simpl.
  - rewrite Nat.add_0_r in Htrue. rewrite Htrue, Nat.add_0_r.
    by rewrite <- app_assoc.
  - pose proof (Hfalse 0%nat ltac:(lia)) as H0. rewrite Nat.add_0_r in H0.
    rewrite H0. rewrite (IH (S i) k); [| lia | |].
    + rewrite <- !app_assoc. simpl. by rewrite Nat.add_succ_r.
    + intros j Hj. replace (S i + j)%nat with (i + S j)%nat by lia. apply Hfalse. lia.
    + by replace (S i + k)%nat with (i + S k)%nat by lia.
Qed.

Lemma tick_loop_unseen n i acts :
  (∀ j, (j < n)%nat → done_tests_at (i + j)%nat = false) →
  tick_loop n i done_tests_at acts =
    (ProcessExit EXIT_WATCHDOG, acts ++ idle_ticks n i ++ [Fired]).
Proof.
  revert i acts. induction n as [|n IH]; intros i acts Hfalse; simpl; [done|].
  pose proof (Hfalse 0%nat ltac:(lia)) as H0. rewrite Nat.add_0_r in H0.
  rewrite H0, IH.
  - by rewrite <- !app_assoc.
  - intros j Hj. replace (S i + j)%nat with (i + S j)%nat by lia. apply Hfalse. lia.
Qed.

Lemma tick_loop_some_seen n i acts :
  (∃ k, (k < n)%nat ∧ done_tests_at (i + k)%nat = true) →
  (tick_loop n i done_tests_at acts).1 = ThreadExit.
Proof.
  revert i acts. induction n as [|n IH]; intros i acts [k [Hk Hseen]]; [lia|].
  simpl. destruct (done_tests_at i) eqn:Hi; [done|].
  apply IH. destruct k as [|k].
  - rewrite Nat.add_0_r in Hseen. congruence.
  - exists k. split; [lia|]. by replace (S i + k)%nat with (i + S k)%nat by lia.
Qed.

(** C3.  The watchdog sleeps one tick and then reads the flag, at most
    [WATCHDOG_DURATION_TICKS] times.  At the first read that sees the flag
    set it ends its own thread, having done nothing else; a set flag at
    any of the ten reads therefore means no process exit.  When all ten
    reads see it clear the watchdog prints and ends the process with
    code 5. *)
Theorem watchdog_exits_on_flag_or_kills_with_5 :
  (∀ k, (k < WATCHDOG_DURATION_TICKS)%nat →
        (∀ j, (j < k)%nat → done_tests_at j = false) →
        done_tests_at k = true →
        watchdog_thread_func done_tests_at =
          (ThreadExit,
           idle_ticks k 0 ++ [Sleep WATCHDOG_DURATION_TICK; Poll k true]))
  ∧ ((∃ k, (k < WATCHDOG_DURATION_TICKS)%nat ∧ done_tests_at k = true) →
     (watchdog_thread_func done_tests_at).1 = ThreadExit)
  ∧ ((∀ k, (k < WATCHDOG_DURATION_TICKS)%nat → done_tests_at k = false) →
     watchdog_thread_func done_tests_at =
       (ProcessExit 5, idle_ticks WATCHDOG_DURATION_TICKS 0 ++ [Fired])).
Proof.
  unfold watchdog_thread_func. repeat split.
  - intros k Hk Hfalse Htrue. by rewrite (tick_loop_seen _ 0 k).
  - intros Hex. by apply tick_loop_some_seen.
  - intros Hfalse. by rewrite tick_loop_unseen.
Qed.

End WatchdogFacts.

(** ** Inferior side *)

Section InferiorFacts.
Import Inferior.
Variable test_data : Z.

Lemma sent_app (a b : list event) : sent (a ++ b) = sent a ++ sent b.
Proof. apply omap_app. Qed.

Lemma verdicts_app (a b : list event) : verdicts (a ++ b) = verdicts a ++ verdicts b.
Proof. apply omap_app. Qed.

(** The faulting load only adds [Fault] events to the trace. *)
Lemma segv_here_trace debugger p :
  ∃ d, p_trace (final (segv_here debugger p)) = p_trace p ++ d ∧ quiet d
       ∧ ∀ c p', segv_here debugger p ≠ Exit c p'.
Proof.
  revert p. induction debugger as [|f debugger IH]; intros p; simpl.
  - destruct (mapped_range _ _ _); simpl.
    + exists []. by rewrite app_nil_r.
    + exists [Fault (r8 (m_regs (p_machine p)))]. done.
  - destruct (mapped_range _ _ _); simpl.
    + exists []. by rewrite app_nil_r.
    + destruct (IH (with_machine (f (p_machine p))
                      (log (Fault (r8 (m_regs (p_machine p)))) p)))
        as (d & Hd & Hq & Hne).
      exists (Fault (r8 (m_regs (p_machine p))) :: d). split_and!.
      * rewrite Hd. simpl. by rewrite <- app_assoc.
      * destruct Hq as [Hs Hv]. by split.
      * done.
Qed.

(** One fault-and-verify cycle: it never exits the process itself, and
    what it adds to the trace ends with its verdict. *)
Lemma test_prep_and_segv_trace p :
  match test_prep_and_segv test_data p with
  | Ret ok p' => ∃ d, p_trace p' = p_trace p ++ d ++ [SegvReturn ok] ∧ quiet d
  | Exit _ _ => False
  | Blocked p' => ∃ d, p_trace p' = p_trace p ++ d ∧ quiet d
  end.
Proof.
  unfold test_prep_and_segv.
  set (p1 := with_machine _ _).
  destruct (segv_here_trace (p_debugger p1) p1) as (d & Hd & Hq & Hne).
  destruct (segv_here (p_debugger p1) p1) as [[] p2|c p2|p2] eqn:Hrun; simpl in Hd.
  - assert (p_trace p2 = p_trace p ++ (Printf "About to segv" :: d)) as Htr.
    { rewrite Hd. simpl. by rewrite <- app_assoc. }
    assert (quiet (Printf "About to segv" :: d)) as Hq'.
    { destruct Hq. by split. }
    destruct (check_test_data _ _ _ _); simpl;
      eexists; (split; [by rewrite Htr, <- app_assoc | done]).
  - by eapply Hne.
  - exists (Printf "About to segv" :: d). split.
    + rewrite Hd. simpl. by rewrite <- app_assoc.
    + destruct Hq. by split.
Qed.

(** The loop of the [MSG_CRASH] case, for any number of tries. *)
Lemma segv_tries_trace n p :
  match segv_tries test_data n p with
  | Ret _ p' =>
      ∃ d, p_trace p' = p_trace p ++ d ∧ sent d = []
           ∧ verdicts d = replicate n true
  | Exit code p' =>
      code = EXIT_BAD_RESUME_DATA
      ∧ ∃ d k, (k < n)%nat ∧ p_trace p' = p_trace p ++ d ∧ sent d = []
               ∧ verdicts d = replicate k true ++ [false]
  | Blocked p' =>
      ∃ d k, (k < n)%nat ∧ p_trace p' = p_trace p ++ d ∧ sent d = []
             ∧ verdicts d = replicate k true
  end.
Proof.
  revert p. induction n as [|n IH]; intros p; simpl.
  { exists []. by rewrite app_nil_r. }
  pose proof (test_prep_and_segv_trace p) as Hcycle.
  destruct (test_prep_and_segv test_data p) as [[] p1|c p1|p1]; [| |done|].
  - destruct Hcycle as (d1 & Hd1 & Hs1 & Hv1).
    specialize (IH p1).
    destruct (segv_tries test_data n p1) as [[] p2|c p2|p2].
    + destruct IH as (d2 & Hd2 & Hs2 & Hv2).
      exists ((d1 ++ [SegvReturn true]) ++ d2). split_and!.
      * by rewrite Hd2, Hd1, <- !app_assoc.
      * by rewrite !sent_app, Hs1, Hs2.
      * by rewrite !verdicts_app, Hv1, Hv2.
    + destruct IH as (-> & d2 & k & Hk & Hd2 & Hs2 & Hv2). split; [done|].
      exists ((d1 ++ [SegvReturn true]) ++ d2), (S k). split_and!.
      * lia.
      * by rewrite Hd2, Hd1, <- !app_assoc.
      * by rewrite !sent_app, Hs1, Hs2.
      * by rewrite !verdicts_app, Hv1, Hv2.
    + destruct IH as (d2 & k & Hk & Hd2 & Hs2 & Hv2).
      exists ((d1 ++ [SegvReturn true]) ++ d2), (S k). split_and!.
      * lia.
      * by rewrite Hd2, Hd1, <- !app_assoc.
      * by rewrite !sent_app, Hs1, Hs2.
      * by rewrite !verdicts_app, Hv1, Hv2.
  - destruct Hcycle as (d1 & Hd1 & Hs1 & Hv1). split; [done|].
    exists (d1 ++ [SegvReturn false]), 0%nat. split_and!.
    + lia.
    + done.
    + by rewrite sent_app, Hs1.
    + by rewrite verdicts_app, Hv1.
  - destruct Hcycle as (d1 & Hd1 & Hs1 & Hv1).
    exists d1, 0%nat. split_and!; [lia|done..].
Qed.

(** One turn of the message loop while it is running. *)
Lemma msg_loop_from_step msg inbox my_done_tests p :
  done_tests (p_globals p) = false → my_done_tests = false →
  msg_loop_from test_data (Some msg :: inbox) my_done_tests p =
    match dispatch test_data msg my_done_tests p with
    | Ret my' p' => msg_loop_from test_data inbox my' p'
    | Exit c p' => Exit c p'
    | Blocked p' => Blocked p'
    end.
Proof. intros Hflag ->. cbn [msg_loop_from]. by rewrite Hflag. Qed.

(** C4.  Handling [MSG_CRASH]: the reply is sent only at the end of a
    trace in which [NUM_SEGV_TRIES] cycles all returned true and nothing
    else was sent; when a cycle's check fails (after [k < NUM_SEGV_TRIES]
    good ones) the process exits with code 21 at once, nothing having
    been sent, and the message loop and [test_inferior] end there with
    that code; a cycle that is never resumed sends nothing either. *)
Theorem crash_reply_only_after_all_tries (my_done_tests : bool) (p : process) :
  match dispatch test_data MSG_CRASH my_done_tests p with
  | Ret my' p' =>
      my' = my_done_tests
      ∧ ∃ d, p_trace p' = p_trace p ++ d ++ [Send MSG_RECOVERED_FROM_CRASH]
             ∧ sent d = [] ∧ verdicts d = replicate NUM_SEGV_TRIES true
  | Exit code p' =>
      code = 21
      ∧ (∃ d k, (k < NUM_SEGV_TRIES)%nat ∧ p_trace p' = p_trace p ++ d
                ∧ sent d = [] ∧ verdicts d = replicate k true ++ [false])
      ∧ (∀ inbox, done_tests (p_globals p) = false → my_done_tests = false →
           msg_loop_from test_data (Some MSG_CRASH :: inbox) my_done_tests p
             = Exit 21 p'
           ∧ test_inferior test_data (Some MSG_CRASH :: inbox) p
             = (Exited 21, p'))
  | Blocked p' =>
      ∃ d k, (k < NUM_SEGV_TRIES)%nat ∧ p_trace p' = p_trace p ++ d
             ∧ sent d = [] ∧ verdicts d = replicate k true
  end.
Proof.
  pose proof (segv_tries_trace NUM_SEGV_TRIES p) as Htries.
  destruct (dispatch test_data MSG_CRASH my_done_tests p) as [my' p'|code p'|p'] eqn:Hd;
    unfold dispatch in Hd;
    destruct (segv_tries test_data NUM_SEGV_TRIES p) as [[] p1|c p1|p1] eqn:Hrun;
    simplify_eq.
  - destruct Htries as (d & Htr & Hs & Hv). split; [done|].
    exists d. split_and!; [|done..].
    unfold send_msg, log. simpl. by rewrite Htr, <- app_assoc.
  - destruct Htries as (-> & Hrest). split_and!; [done..|].
    intros inbox Hflag ->. unfold test_inferior, msg_loop.
    assert (msg_loop_from test_data (Some MSG_CRASH :: inbox) false p
            = Exit EXIT_BAD_RESUME_DATA p') as ->; [|done].
    rewrite msg_loop_from_step by done. unfold dispatch. by rewrite Hrun.
  - done.
Qed.

(** C8.  A message outside the four kinds the loop has a case for is
    logged and nothing else: the [switch] leaves [my_done_tests] and the
    process as they were but for the log line (no message sent, flag,
    threads, registers and memory untouched), and the loop goes on with
    the next message. *)
Theorem unknown_message_logged_and_ignored (msg : message)
    (inbox : list (option message)) (my_done_tests : bool) (p : process) :
  recognized msg = false →
  let p' := log (Printf "unknown message received") p in
  dispatch test_data msg my_done_tests p = Ret my_done_tests p'
  ∧ sent (p_trace p') = sent (p_trace p)
  ∧ verdicts (p_trace p') = verdicts (p_trace p)
  ∧ p_globals p' = p_globals p
  ∧ p_machine p' = p_machine p
  ∧ threads p' = threads p
  ∧ p_debugger p' = p_debugger p
  ∧ (done_tests (p_globals p) = false → my_done_tests = false →
     msg_loop_from test_data (Some msg :: inbox) my_done_tests p
       = msg_loop_from test_data inbox my_done_tests p').
Proof.
  intros Hunk p'.
  assert (dispatch test_data msg my_done_tests p = Ret my_done_tests p') as Hd.
  { by destruct msg. }
  split_and!; try done.
  - unfold p', log. simpl. by rewrite sent_app, app_nil_r.
  - unfold p', log. simpl. by rewrite verdicts_app, app_nil_r.
  - intros Hflag ->. rewrite msg_loop_from_step by done. by rewrite Hd.
Qed.

(** C10.  With the loop running, [MSG_DONE] ends it with the process
    untouched (so nothing is sent) and the rest of the inbox unread;
    whenever the loop ends well [test_inferior] stores true to
    [done_tests] and exits with 1234, which is neither 0 nor one of
    5, 20, 21, -1. *)
Theorem done_ends_loop_and_exits_1234 (inbox : list (option message))
    (p : process) :
  done_tests (p_globals p) = false →
  msg_loop_from test_data (Some MSG_DONE :: inbox) false p = Ret true p
  ∧ (∀ inbox' p', msg_loop test_data inbox' p = Ret true p' →
       test_inferior test_data inbox' p =
         (Exited 1234,
          log (Printf "Inferior done")
            (with_globals (store_done_tests true (p_globals p')) p')))
  ∧ (let '(e, p') := test_inferior test_data (Some MSG_DONE :: inbox) p in
     e = Exited EXIT_INFERIOR_DONE
     ∧ done_tests (p_globals p') = true
     ∧ done_tests_stores (p_globals p') = done_tests_stores (p_globals p) ++ [true]
     ∧ sent (p_trace p') = sent (p_trace p))
  ∧ EXIT_INFERIOR_DONE = 1234
  ∧ EXIT_INFERIOR_DONE ≠ 0
  ∧ (EXIT_INFERIOR_DONE ∉
      [EXIT_DRIVER_OK; EXIT_WATCHDOG; EXIT_MSG_LOOP_FAILED;
       EXIT_BAD_RESUME_DATA; EXIT_DRIVER_FAILED])
  ∧ [EXIT_DRIVER_OK; EXIT_WATCHDOG; EXIT_MSG_LOOP_FAILED;
     EXIT_BAD_RESUME_DATA; EXIT_DRIVER_FAILED] = [0; 5; 20; 21; -1].
Proof.
  intros Hflag.
  assert (msg_loop_from test_data (Some MSG_DONE :: inbox) false p = Ret true p)
    as Hloop.
  { rewrite msg_loop_from_step by done. simpl.
    destruct inbox; simpl; by rewrite andb_false_r. }
  split_and!; try done.
  - intros inbox' p' Hrun. unfold test_inferior. by rewrite Hrun.
  - unfold test_inferior, msg_loop. rewrite Hloop. simpl. split_and!; try done.
    by rewrite sent_app, app_nil_r.
  - unfold EXIT_INFERIOR_DONE, EXIT_DRIVER_OK, EXIT_WATCHDOG,
      EXIT_MSG_LOOP_FAILED, EXIT_BAD_RESUME_DATA, EXIT_DRIVER_FAILED.
    rewrite !elem_of_cons, elem_of_nil. lia.
Qed.

(** Creating [n] threads appends [n] fresh ids to the thread list, in
    order, and sends nothing. *)
Lemma start_extra_threads_spec n p :
  ∃ d,
    p_trace (start_extra_threads n p) = p_trace p ++ d
    ∧ sent d = [] ∧ verdicts d = []
    ∧ length (created d) = n
    ∧ threads (start_extra_threads n p) = threads p ++ created d
    ∧ p_globals (start_extra_threads n p) = p_globals p.
Proof.
  revert p. induction n as [|n IH]; intros p; cbn [start_extra_threads].
  { exists []. by rewrite !app_nil_r. }
  destruct (IH (tu_thread_create_c11 "extra-thread" p))
    as (d & Htr & Hs & Hv & Hlen & Hth & Hg).
  exists (ThreadCreate "extra-thread" (p_next_koid p)
          :: Printf "Extra thread started." :: d).
  split_and!.
  - rewrite Htr. cbn. by rewrite <- !app_assoc.
  - done.
  - done.
  - cbn. f_equal. exact Hlen.
  - rewrite Hth. unfold threads. cbn. by rewrite <- app_assoc.
  - by rewrite Hg.
Qed.


Lemma trace_log e q : p_trace (log e q) = p_trace q ++ [e].
Proof. reflexivity. Qed.


Lemma globals_log e q : p_globals (log e q) = p_globals q.
Proof. reflexivity. Qed.

(** Nothing in the message loop stores to the flag. *)
Lemma segv_here_globals debugger p :
  p_globals (final (segv_here debugger p)) = p_globals p.
Proof.
  revert p. induction debugger as [|f debugger IH]; intros p; cbn [segv_here];
    destruct (mapped_range _ _ _); try done.
  by rewrite IH.
Qed.

Lemma test_prep_and_segv_globals p :
  p_globals (final (test_prep_and_segv test_data p)) = p_globals p.
Proof.
  unfold test_prep_and_segv.
  set (p1 := with_machine _ _).
  pose proof (segv_here_globals (p_debugger p1) p1) as Hg.
  destruct (segv_here (p_debugger p1) p1) as [[] p2|c p2|p2]; try done.
  by destruct (check_test_data _ _ _ _).
Qed.

Lemma segv_tries_globals n p :
  p_globals (final (segv_tries test_data n p)) = p_globals p.
Proof.
  revert p. induction n as [|n IH]; intros p; cbn [segv_tries]; [done|].
  pose proof (test_prep_and_segv_globals p) as Hg.
  destruct (test_prep_and_segv test_data p) as [[] p1|c p1|p1]; try done.
  by rewrite IH.
Qed.

Lemma dispatch_globals msg my_done_tests p :
  p_globals (final (dispatch test_data msg my_done_tests p)) = p_globals p.
Proof.
  destruct msg; [done|done|done| |done| |done|done].
  - unfold dispatch. pose proof (segv_tries_globals NUM_SEGV_TRIES p) as Hg.
    by destruct (segv_tries test_data NUM_SEGV_TRIES p).
  - destruct (start_extra_threads_spec NUM_EXTRA_THREADS p)
      as (d & _ & _ & _ & _ & _ & Hg).
    unfold dispatch. cbn [final]. unfold send_msg.
    by rewrite globals_log.
Qed.

Lemma msg_loop_from_globals inbox my_done_tests p :
  p_globals (final (msg_loop_from test_data inbox my_done_tests p)) = p_globals p.
Proof.
  revert my_done_tests p.
  induction inbox as [|[msg|] inbox IH]; intros my_done_tests p;
    cbn [msg_loop_from]; destruct (negb _ && negb _); try done.
  pose proof (dispatch_globals msg my_done_tests p) as Hg.
  destruct (dispatch test_data msg my_done_tests p) as [my' p1|c p1|p1]; try done.
  by rewrite IH.
Qed.

(** [test_inferior] stores to the flag at most once, and then true. *)
Lemma test_inferior_stores inbox p :
  let g := p_globals (test_inferior test_data inbox p).2 in
  g = p_globals p ∨ g = store_done_tests true (p_globals p).
Proof.
  unfold test_inferior, msg_loop.
  pose proof (msg_loop_from_globals inbox false p) as Hg.
  destruct (msg_loop_from test_data inbox false p) as [[] p1|c p1|p1];
    cbn [final snd] in *; rewrite <- Hg; auto.
Qed.

End InferiorFacts.

(** ** Supervisor side, for any kernel *)

Section SupervisorFacts.
Import Supervisor.
Context `{Abi} `{Kernel K}.

Lemma count_app f (a b : list event) : count f (a ++ b) = (count f a + count f b)%nat.
Proof. unfold count. by rewrite List.filter_app, length_app. Qed.

Lemma filter_failures f (tr : list event) :
  (∀ msg, f (Failure msg) = false) →
  Forall (λ e, is_failure e = true) tr → List.filter f tr = [].
Proof.
  intros Hf. induction 1 as [|e tr He _ IH]; [done|].
  destruct e; try done. simpl. by rewrite Hf.
Qed.

Lemma expected_failures cond msg : Forall (λ e, is_failure e = true) (expected cond msg).
Proof. destruct cond; simpl; by repeat constructor. Qed.

Lemma seed_events_failures n i buf :
  Forall (λ e, is_failure e = true) (seed_events n i buf).
Proof.
  revert i. induction n as [|n IH]; intros i; simpl; [constructor|].
  apply Forall_app. split; [apply expected_failures | apply IH].
Qed.

Lemma EXPECT_run (cond : bool) msg (w : world K) :
  EXPECT cond msg w =
    Done tt {| kern := kern w; all_ok := all_ok w && cond;
               trace := trace w ++ expected cond msg |}.
Proof.
  destruct w as [k ok tr], cond; unfold EXPECT, fail; simpl.
  - by rewrite andb_true_r, app_nil_r.
  - by rewrite andb_false_r.
Qed.

Lemma expect_seed_run n i buf (w : world K) :
  expect_seed n i buf w =
    Done tt {| kern := kern w; all_ok := all_ok w && seed_ok n i buf;
               trace := trace w ++ seed_events n i buf |}.
Proof.
  revert i w. induction n as [|n IH]; intros i w.
  - destruct w. simpl. by rewrite andb_true_r, app_nil_r.
  - cbn [expect_seed seed_ok seed_events].
    unfold mbind, M_bind, bind. rewrite EXPECT_run, IH. simpl.
    by rewrite <- andb_assoc, <- app_assoc.
Qed.

(** [test_memory_ops] in terms of what the kernel answers. *)
Lemma test_memory_ops_run inferior thread (w : world K) :
  ∀ addr k1 ssize buf k2 ssize' k3,
    get_uint64_register thread REG_R9 (kern w) = (addr, k1) →
    read_inferior_memory inferior addr TEST_MEMORY_SIZE k1 = (ssize, buf, k2) →
    write_inferior_memory inferior addr (adjust buf) k2 = (ssize', k3) →
    test_memory_ops inferior thread w =
      Done tt
        {| kern := k3;
           all_ok := all_ok w
                     && bool_decide (ssize = Z.of_nat TEST_MEMORY_SIZE)
                     && seed_ok TEST_MEMORY_SIZE 0 buf
                     && bool_decide (ssize' = Z.of_nat TEST_MEMORY_SIZE);
           trace := trace w
             ++ [GetReg thread REG_R9 addr;
                 ReadMem inferior addr TEST_MEMORY_SIZE ssize]
             ++ expected (bool_decide (ssize = Z.of_nat TEST_MEMORY_SIZE))
                  "read_inferior_memory: short read"
             ++ seed_events TEST_MEMORY_SIZE 0 buf
             ++ [WriteMem inferior addr (adjust buf) ssize']
             ++ expected (bool_decide (ssize' = Z.of_nat TEST_MEMORY_SIZE))
                  "write_inferior_memory: short write" |}.
Proof.
  intros addr k1 ssize buf k2 ssize' k3 Hreg Hread Hwrite.
  unfold test_memory_ops, mbind, M_bind, bind, sys.
  rewrite Hreg. cbn [kern all_ok trace]. rewrite Hread.
  rewrite EXPECT_run. cbn [kern all_ok trace fst snd].
  rewrite expect_seed_run. cbn [kern all_ok trace]. rewrite Hwrite.
  rewrite EXPECT_run. cbn [kern all_ok trace].
  by rewrite <- !app_assoc.
Qed.

(** Filtering, and counting, a class of events in a trace built from
    single events and failed checks. *)
Ltac filter_trace f :=
  repeat first
    [ rewrite List.filter_app
    | progress cbn [app List.filter f]
    | rewrite (filter_failures f)
        by first [done | apply expected_failures | apply seed_events_failures] ];
  try done.

Ltac count_trace f := unfold count; filter_trace f.

(** C7.  [test_memory_ops] always runs to its end and issues exactly one
    read and one write, each for [sizeof(test_data)] bytes; the length
    each returns is compared with that size, and a different length
    clears [all_ok] and leaves the failure in the trace.  Nothing is
    transferred a second time. *)
Theorem transfers_checked_never_retried inferior thread (w : world K) :
  ∃ addr k1 ssize buf k2 ssize' k3 w' d,
    get_uint64_register thread REG_R9 (kern w) = (addr, k1)
    ∧ read_inferior_memory inferior addr TEST_MEMORY_SIZE k1 = (ssize, buf, k2)
    ∧ write_inferior_memory inferior addr (adjust buf) k2 = (ssize', k3)
    ∧ test_memory_ops inferior thread w = Done tt w'
    ∧ kern w' = k3
    ∧ trace w' = trace w ++ d
    ∧ List.filter is_read d = [ReadMem inferior addr TEST_MEMORY_SIZE ssize]
    ∧ List.filter is_write d = [WriteMem inferior addr (adjust buf) ssize']
    ∧ length (adjust buf) = TEST_MEMORY_SIZE
    ∧ (ssize ≠ Z.of_nat TEST_MEMORY_SIZE →
       all_ok w' = false ∧ Failure "read_inferior_memory: short read" ∈ d)
    ∧ (ssize' ≠ Z.of_nat TEST_MEMORY_SIZE →
       all_ok w' = false ∧ Failure "write_inferior_memory: short write" ∈ d)
    ∧ (all_ok w' = true →
       ssize = Z.of_nat TEST_MEMORY_SIZE ∧ ssize' = Z.of_nat TEST_MEMORY_SIZE).
Proof.
  destruct (get_uint64_register thread REG_R9 (kern w)) as [addr k1] eqn:Hreg.
  destruct (read_inferior_memory inferior addr TEST_MEMORY_SIZE k1)
    as [[ssize buf] k2] eqn:Hread.
  destruct (write_inferior_memory inferior addr (adjust buf) k2)
    as [ssize' k3] eqn:Hwrite.
  eexists addr, k1, ssize, buf, k2, ssize', k3, _, _.
  do 3 (split; [done|]).
  split; [by eapply test_memory_ops_run|]. cbn [kern all_ok trace].
  do 2 (split; [done|]).
  split_and!.
  - filter_trace is_read.
  - filter_trace is_write.
  - unfold adjust. by rewrite length_fmap, length_seq.
  - intros Hshort. rewrite bool_decide_eq_false_2 by done. split.
    + by rewrite andb_false_r.
    + cbn [expected]. rewrite !elem_of_app, !elem_of_cons. tauto.
  - intros Hshort. rewrite (bool_decide_eq_false_2 (ssize' = _)) by done. split.
    + by rewrite andb_false_r.
    + cbn [expected]. rewrite !elem_of_app, !elem_of_cons. tauto.
  - intros Hok. apply andb_true_iff in Hok as [Hok Hw].
    apply andb_true_iff in Hok as [Hok _].
    apply andb_true_iff in Hok as [_ Hr].
    by apply bool_decide_eq_true in Hr, Hw.
Qed.

Lemma fix_inferior_segv_run thread (w : world K) :
  ∀ sp k1,
    get_uint64_register thread REG_SP (kern w) = (sp, k1) →
    fix_inferior_segv thread w =
      Done tt
        {| kern := set_uint64_register thread REG_R8 sp k1;
           all_ok := all_ok w;
           trace := trace w ++ [GetReg thread REG_SP sp; SetReg thread REG_R8 sp] |}.
Proof.
  intros sp k1 Hreg. unfold fix_inferior_segv, mbind, M_bind, bind, sys, sys_.
  rewrite Hreg. cbn [kern all_ok trace]. by rewrite <- app_assoc.
Qed.

(** One pass through the loop body: how it can end and what it adds to
    the trace. *)
Lemma worker_iteration_summary inferior eport (w : world K) :
  match worker_iteration inferior eport w with
  | Done Continue w' =>
      ∃ d, trace w' = trace w ++ d
           ∧ count is_wait d = 1%nat ∧ count is_resumed d = 1%nat
  | Done Break w' =>
      ∃ tid, trace w' = trace w ++ [PortWait eport NO_ERROR MX_EXCP_GONE tid]
             ∧ all_ok w' = all_ok w
  | Failed w' =>
      all_ok w' = false
      ∧ ∃ d, trace w' = trace w ++ d
             ∧ count is_wait d = 1%nat ∧ count is_resumed d = 0%nat
  | Stuck w' => w' = w
  end.
Proof.
  unfold worker_iteration, port_wait, mbind, M_bind, bind.
  destruct (mx_port_wait eport (kern w)) as [[[status pkt] k]|]; [|done].
  unfold ASSERT at 1. case_bool_decide as Hstatus; cbn [kern all_ok trace fail].
  2:{ split; [done|]. eexists. split; [by rewrite <- app_assoc|].
      split; by count_trace is_wait. }
  subst status.
  case_bool_decide as Hgone.
  { unfold mret, M_ret, ret. exists (pkt_tid pkt). by rewrite Hgone. }
  destruct (MX_EXCP_IS_ARCH (pkt_type pkt)).
  2:{ unfold ASSERT at 1. cbn [kern all_ok trace fail].
      split; [done|]. eexists. split; [by rewrite <- app_assoc|].
      split; by count_trace is_wait. }
  cbn [mret M_ret ret].
  unfold sys at 1. cbn [kern all_ok trace].
  destruct (mx_object_get_child inferior (pkt_tid pkt) k) as [[cstatus thread] k2].
  cbn [fst snd]. unfold ASSERT at 1.
  case_bool_decide as Hchild; cbn [kern all_ok trace fail].
  2:{ split; [done|]. eexists. split; [by rewrite <- !app_assoc|].
      split; by count_trace is_wait. }
  unfold sys_ at 1. cbn [kern all_ok trace].
  destruct (get_uint64_register thread REG_R9 (dump_inferior_regs thread k2))
    as [addr k3] eqn:Hreg.
  destruct (read_inferior_memory inferior addr TEST_MEMORY_SIZE k3)
    as [[ssize buf] k4] eqn:Hread.
  destruct (write_inferior_memory inferior addr (adjust buf) k4)
    as [ssize' k5] eqn:Hwrite.
  erewrite test_memory_ops_run by done. cbn [kern all_ok trace].
  destruct (get_uint64_register thread REG_SP k5) as [sp k6] eqn:Hsp.
  erewrite fix_inferior_segv_run by done. cbn [kern all_ok trace].
  unfold sys at 1. cbn [kern all_ok trace].
  destruct (mx_task_resume thread (set_uint64_register thread REG_R8 sp k6))
    as [rstatus k7].
  unfold sys_ at 1. cbn [kern all_ok trace]. unfold ASSERT at 1.
  case_bool_decide as Hresume; cbn [kern all_ok trace fail mret M_ret ret].
  - eexists. split; [by rewrite <- !app_assoc|].
    split.
    + by count_trace is_wait.
    + count_trace is_resumed. by rewrite bool_decide_eq_true_2.
  - split; [done|]. eexists. split; [by rewrite <- !app_assoc|].
    split.
    + by count_trace is_wait.
    + count_trace is_resumed. by rewrite bool_decide_eq_false_2.
Qed.

(** The loop, for any number of remaining passes [n] and any counter [i]:
    it is left normally with [i + n] after [n] complete passes, or through
    [break] on a "gone" packet with a smaller counter; a pass that fails
    or blocks leaves fewer than [n] resumed exceptions behind. *)
Lemma segv_loop_summary inferior eport n i (w : world K) :
  match segv_loop inferior eport n i w with
  | Done j w' =>
      ∃ d, trace w' = trace w ++ d
           ∧ (i ≤ j ≤ i + n)%nat
           ∧ count is_resumed d = (j - i)%nat
           ∧ ((j = (i + n)%nat ∧ count is_wait d = n)
              ∨ ((j < i + n)%nat ∧ count is_wait d = S (j - i)
                 ∧ ∃ d0 tid, d = d0 ++ [PortWait eport NO_ERROR MX_EXCP_GONE tid]))
  | Failed w' =>
      all_ok w' = false
      ∧ ∃ d, trace w' = trace w ++ d
             ∧ (count is_resumed d < n)%nat ∧ (count is_wait d ≤ n)%nat
  | Stuck w' =>
      ∃ d, trace w' = trace w ++ d
           ∧ (count is_resumed d < n)%nat ∧ (count is_wait d < n)%nat
  end.
Proof.
  revert i w. induction n as [|n IH]; intros i w.
  { simpl. exists []. rewrite app_nil_r. split_and!; try done; try lia.
    - by rewrite Nat.sub_diag.
    - left. split; [lia|done]. }
  cbn [segv_loop]. unfold mbind, M_bind, bind.
  pose proof (worker_iteration_summary inferior eport w) as Hit.
  destruct (worker_iteration inferior eport w) as [[] w1|w1|w1].
  - destruct Hit as (d1 & Hd1 & Hw1 & Hr1).
    specialize (IH (S i) w1).
    destruct (segv_loop inferior eport n (S i) w1) as [j w2|w2|w2].
    + destruct IH as (d2 & Hd2 & Hj & Hr2 & Hcase).
      exists (d1 ++ d2). split_and!.
      * by rewrite Hd2, Hd1, <- app_assoc.
      * lia.
      * lia.
      * rewrite count_app, Hr1, Hr2. lia.
      * rewrite count_app, Hw1.
        destruct Hcase as [[-> Hw2]|(Hlt & Hw2 & d0 & tid & ->)].
        -- left. split; lia.
        -- right. split_and!; [lia|lia|].
           exists (d1 ++ d0), tid. by rewrite <- app_assoc.
    + destruct IH as (Hok & d2 & Hd2 & Hr2 & Hw2). split; [done|].
      exists (d1 ++ d2). rewrite !count_app, Hw1, Hr1. split_and!; try lia.
      by rewrite Hd2, Hd1, <- app_assoc.
    + destruct IH as (d2 & Hd2 & Hr2 & Hw2).
      exists (d1 ++ d2). rewrite !count_app, Hw1, Hr1. split_and!; try lia.
      by rewrite Hd2, Hd1, <- app_assoc.
  - destruct Hit as (tid & Hd1 & Hok). cbn [mret M_ret ret].
    eexists. split; [done|]. split_and!; try lia.
    + by rewrite Nat.sub_diag.
    + right. rewrite Nat.sub_diag. split_and!; [lia|done|].
      by exists [], tid.
  - destruct Hit as (Hok & d1 & Hd1 & Hw1 & Hr1). split; [done|].
    exists d1. split_and!; [done|lia|lia].
  - subst w1. exists []. rewrite app_nil_r. split_and!; [done|..]; cbn; lia.
Qed.

(** C1.  The worker returns true only from a run in which the loop made
    exactly [NUM_SEGV_TRIES] passes (that many waits, that many resumed
    exceptions); no run makes more.  It tests the counter after the loop:
    when the loop is left with a smaller one, which happens exactly when a
    "gone" packet arrives, the test fails, [all_ok] is cleared and the
    worker returns false.  Every other early end is a failed assertion
    inside a pass, reported the same way, or a wait that never returns. *)
Theorem worker_completes_all_tries_or_reports inferior eport (w : world K) :
  match wait_inferior_thread_worker inferior eport w with
  | Done ok w' =>
      ok = true
      ∧ ∃ d, trace w' = trace w ++ d
             ∧ count is_wait d = NUM_SEGV_TRIES
             ∧ count is_resumed d = NUM_SEGV_TRIES
  | Failed w' =>
      all_ok w' = false
      ∧ ∃ d, trace w' = trace w ++ d
             ∧ (count is_resumed d < NUM_SEGV_TRIES)%nat
             ∧ (count is_wait d ≤ NUM_SEGV_TRIES)%nat
  | Stuck w' =>
      ∃ d, trace w' = trace w ++ d
           ∧ (count is_resumed d < NUM_SEGV_TRIES)%nat
           ∧ (count is_wait d < NUM_SEGV_TRIES)%nat
  end
  ∧ (∀ i w1,
       segv_loop inferior eport NUM_SEGV_TRIES 0 w = Done i w1 →
       (i ≤ NUM_SEGV_TRIES)%nat
       ∧ (i = NUM_SEGV_TRIES →
          wait_inferior_thread_worker inferior eport w = Done true w1)
       ∧ ((i < NUM_SEGV_TRIES)%nat →
          wait_inferior_thread_worker inferior eport w
            = Failed (fail "segv tests terminated prematurely" w1)
          ∧ ∃ d0 tid,
              trace w1 = trace w ++ d0 ++ [PortWait eport NO_ERROR MX_EXCP_GONE tid]
              ∧ count is_resumed d0 = i))
  ∧ (∀ n i pkt k,
       mx_port_wait eport (kern w) = Some (NO_ERROR, pkt, k) →
       pkt_type pkt = MX_EXCP_GONE →
       segv_loop inferior eport (S n) i w =
         Done i {| kern := k; all_ok := all_ok w;
                   trace := trace w
                     ++ [PortWait eport NO_ERROR MX_EXCP_GONE (pkt_tid pkt)] |}).
Proof.
  split_and!.
  - unfold wait_inferior_thread_worker, mbind, M_bind, bind.
    pose proof (segv_loop_summary inferior eport NUM_SEGV_TRIES 0 w) as Hloop.
    destruct (segv_loop inferior eport NUM_SEGV_TRIES 0 w) as [j w1|w1|w1];
      [|done..].
    destruct Hloop as (d & Hd & Hj & Hr & Hcase). unfold ASSERT.
    case_bool_decide as Hfull; cbn [mret M_ret ret fail kern all_ok trace].
    + split; [done|]. exists d. split; [done|].
      destruct Hcase as [[_ Hw]|[Hlt _]]; [|lia].
      split; [done|]. rewrite Hr. lia.
    + split; [done|].
      exists (d ++ [Failure "segv tests terminated prematurely"]).
      rewrite !count_app. split_and!.
      * by rewrite Hd, <- app_assoc.
      * rewrite Hr. cbn. lia.
      * destruct Hcase as [[? _]|[Hlt [Hw _]]]; [lia|]. rewrite Hw. cbn. lia.
  - intros i w1 Hloop.
    pose proof (segv_loop_summary inferior eport NUM_SEGV_TRIES 0 w) as Hsum.
    rewrite Hloop in Hsum. destruct Hsum as (d & Hd & Hi & Hr & Hcase).
    unfold wait_inferior_thread_worker, mbind, M_bind, bind. rewrite Hloop.
    unfold ASSERT. split_and!.
    + lia.
    + intros ->. by rewrite bool_decide_eq_true_2.
    + intros Hlt. rewrite bool_decide_eq_false_2 by lia. split; [done|].
      destruct Hcase as [[? _]|(_ & Hw & d0 & tid & ->)]; [lia|].
      exists d0, tid. split; [done|].
      rewrite count_app in Hr. cbn in Hr. lia.
  - intros n i pkt k Hwait Hgone.
    cbn [segv_loop]. unfold mbind, M_bind, bind, worker_iteration, port_wait.
    unfold mbind, M_bind, bind. rewrite Hwait. unfold ASSERT at 1.
    rewrite bool_decide_eq_true_2 by done.
    rewrite bool_decide_eq_true_2 by done.
    cbn [mret M_ret ret]. by rewrite Hgone.
Qed.

(** C5.  In any pass of the loop, a packet that is neither "gone" nor an
    architectural exception fails an assertion: the loop and the worker
    end at once, returning false with [all_ok] cleared, and the kernel is
    left as the wait left it (no lookup, no resume, no further wait).  The
    same holds when the lookup of the packet's thread id does not return
    0: nothing is called after the lookup. *)
Theorem malformed_stream_is_fatal inferior eport (w : world K) :
  (∀ n i pkt k,
     mx_port_wait eport (kern w) = Some (NO_ERROR, pkt, k) →
     pkt_type pkt ≠ MX_EXCP_GONE →
     MX_EXCP_IS_ARCH (pkt_type pkt) = false →
     let w' :=
       {| kern := k; all_ok := false;
          trace := trace w
            ++ [PortWait eport NO_ERROR (pkt_type pkt) (pkt_tid pkt);
                Failure "wait-inf: unexpected exception type"] |} in
     worker_iteration inferior eport w = Failed w'
     ∧ segv_loop inferior eport (S n) i w = Failed w'
     ∧ wait_inferior_thread_worker inferior eport w = Failed w')
  ∧ (∀ n i pkt k status thread k',
       mx_port_wait eport (kern w) = Some (NO_ERROR, pkt, k) →
       pkt_type pkt ≠ MX_EXCP_GONE →
       MX_EXCP_IS_ARCH (pkt_type pkt) = true →
       mx_object_get_child inferior (pkt_tid pkt) k = (status, thread, k') →
       status ≠ 0 →
       let w' :=
         {| kern := k'; all_ok := false;
            trace := trace w
              ++ [PortWait eport NO_ERROR (pkt_type pkt) (pkt_tid pkt);
                  GetChild inferior (pkt_tid pkt) status thread;
                  Failure "mx_debug_task_get_child failed"] |} in
       worker_iteration inferior eport w = Failed w'
       ∧ segv_loop inferior eport (S n) i w = Failed w'
       ∧ wait_inferior_thread_worker inferior eport w = Failed w').
Proof.
  split.
  - intros n i pkt k Hwait Hgone Harch w'.
    assert (worker_iteration inferior eport w = Failed w') as Hit.
    { unfold worker_iteration, port_wait, mbind, M_bind, bind. rewrite Hwait.
      unfold ASSERT at 1. rewrite bool_decide_eq_true_2 by done.
      rewrite bool_decide_eq_false_2 by done. rewrite Harch.
      unfold ASSERT at 1, fail. cbn [kern all_ok trace].
      by rewrite <- app_assoc. }
    assert (∀ m j, segv_loop inferior eport (S m) j w = Failed w') as Hloop.
    { intros m j. cbn [segv_loop]. unfold mbind, M_bind, bind. by rewrite Hit. }
    split_and!; [done..|].
    unfold wait_inferior_thread_worker, mbind, M_bind, bind.
    unfold NUM_SEGV_TRIES. by rewrite Hloop.
  - intros n i pkt k status thread k' Hwait Hgone Harch Hchild Hstatus w'.
    assert (worker_iteration inferior eport w = Failed w') as Hit.
    { unfold worker_iteration, port_wait, mbind, M_bind, bind. rewrite Hwait.
      unfold ASSERT at 1. rewrite bool_decide_eq_true_2 by done.
      rewrite bool_decide_eq_false_2 by done. rewrite Harch.
      cbn [mret M_ret ret]. unfold sys at 1. cbn [kern all_ok trace].
      rewrite Hchild. cbn [fst snd]. unfold ASSERT at 1, fail.
      rewrite bool_decide_eq_false_2 by done. cbn [kern all_ok trace].
      by rewrite <- !app_assoc. }
    assert (∀ m j, segv_loop inferior eport (S m) j w = Failed w') as Hloop.
    { intros m j. cbn [segv_loop]. unfold mbind, M_bind, bind. by rewrite Hit. }
    split_and!; [done..|].
    unfold wait_inferior_thread_worker, mbind, M_bind, bind.
    unfold NUM_SEGV_TRIES. by rewrite Hloop.
Qed.



End SupervisorFacts.

(** ** Both sides together, on the simulated kernel *)

Section SimFacts.
Import Inferior Supervisor.

Lemma transfer_len_full mapped addr n :
  (∀ i : nat, (i < n)%nat → mapped (addr + Z.of_nat i) = true) →
  Sim.transfer_len mapped addr n = n.
Proof.
  revert addr. induction n as [|n IH]; intros addr Hm; simpl; [done|].
  pose proof (Hm 0%nat ltac:(lia)) as H0. rewrite Z.add_0_r in H0. rewrite H0.
  rewrite IH; [done|]. intros i Hi.
  replace (addr + 1 + Z.of_nat i) with (addr + Z.of_nat (S i)) by lia.
  apply Hm. lia.
Qed.

Lemma store_bytes_outside bs addr mem a :
  (a < addr ∨ addr + Z.of_nat (length bs) ≤ a) →
  Sim.store_bytes addr bs mem a = mem a.
Proof.
  revert addr mem. induction bs as [|b bs IH]; intros addr mem Ha; simpl; [done|].
  rewrite IH by (simpl in Ha; lia).
  apply fn_lookup_insert_ne. simpl in Ha. lia.
Qed.

Lemma store_bytes_inside bs addr mem (j : nat) b :
  bs !! j = Some b →
  Sim.store_bytes addr bs mem (addr + Z.of_nat j) = b.
Proof.
  revert addr mem j. induction bs as [|b' bs IH]; intros addr mem j Hj; [done|].
  destruct j as [|j]; simpl in *.
  - simplify_eq. rewrite Z.add_0_r, store_bytes_outside by lia.
    apply fn_lookup_insert.
  - replace (addr + Z.of_nat (S j)) with (addr + 1 + Z.of_nat j) by lia.
    by apply IH.
Qed.

Lemma sim_test_memory_ops inferior thread (w : world Sim.state) :
  let k := kern w in
  let addr := r9 (Sim.regs_of k) in
  let buf : nat → Z := λ i, if decide (i < 8)%nat then Sim.mem_of k (addr + Z.of_nat i) else Sim.junk k i in
  (∀ i : nat, (i < 8)%nat → p_mapped (Sim.proc k) (addr + Z.of_nat i) = true) →
  test_memory_ops inferior thread w =
    Done tt
      {| kern := Sim.with_mem (Sim.store_bytes addr (adjust buf) (Sim.mem_of k)) k;
         all_ok := all_ok w && seed_ok TEST_MEMORY_SIZE 0 buf;
         trace := trace w
           ++ [GetReg thread REG_R9 addr; ReadMem inferior addr TEST_MEMORY_SIZE 8]
           ++ seed_events TEST_MEMORY_SIZE 0 buf
           ++ [WriteMem inferior addr (adjust buf) 8] |}.
Proof.
  intros k addr buf Hmapped.
  rewrite (test_memory_ops_run inferior thread w addr k 8 buf k 8
             (Sim.with_mem (Sim.store_bytes addr (adjust buf) (Sim.mem_of k)) k)).
  - rewrite !bool_decide_eq_true_2 by done. cbn [expected].
    by rewrite !andb_true_r, !app_nil_r.
  - done.
  - cbn [read_inferior_memory Sim.kernel]. unfold Sim.sim_read_memory.
    by rewrite transfer_len_full.
  - cbn [write_inferior_memory Sim.kernel]. unfold Sim.sim_write_memory.
    rewrite transfer_len_full by done. done.
Qed.

Variables (test_data : Z) (p : process) (junk : nat → Z).

Lemma monitor_effect m :
  (∀ i : nat, (i < 8)%nat → p_mapped p (r9 (m_regs m) + Z.of_nat i) = true) →
  Sim.monitor p test_data junk m =
    {| m_regs := {| r8 := rsp (m_regs m); r9 := r9 (m_regs m);
                    rax := rax (m_regs m); rsp := rsp (m_regs m) |};
       m_mem := Sim.store_bytes (r9 (m_regs m))
                  (adjust (λ i, if decide (i < 8)%nat
                                then m_mem m (r9 (m_regs m) + Z.of_nat i)
                                else junk i))
                  (m_mem m) |}.
Proof.
  intros Hbuf. unfold Sim.monitor, worker_iteration, port_wait, mbind, M_bind, bind.
  cbn [mx_port_wait Sim.kernel Sim.fresh Sim.suspended kern all_ok trace Sim.sim_port_wait Sim.port].
  unfold ASSERT at 1. rewrite bool_decide_eq_true_2 by done.
  cbn [pkt_type pkt_tid].
  rewrite bool_decide_eq_false_2 by done.
  cbn [MX_EXCP_IS_ARCH Sim.abi]. rewrite bool_decide_eq_true_2 by done.
  cbn [mret M_ret ret]. unfold sys at 1. cbn [kern all_ok trace mx_object_get_child Sim.kernel].
  unfold Sim.sim_get_child. cbn [Sim.proc with_machine threads p_main_thread p_extra_threads].
  rewrite bool_decide_eq_true_2 by (apply elem_of_cons; by left).
  cbn [fst snd]. unfold ASSERT at 1. rewrite bool_decide_eq_true_2 by done.
  unfold sys_ at 1. cbn [kern all_ok trace dump_inferior_regs Sim.kernel].
  rewrite sim_test_memory_ops by done.
  cbn [kern all_ok trace].
  erewrite fix_inferior_segv_run by reflexivity.
  unfold sys at 1. cbn [kern all_ok trace mx_task_resume Sim.kernel].
  unfold sys_ at 1. cbn [kern all_ok trace tu_handle_close Sim.kernel fst snd].
  unfold ASSERT at 1. rewrite bool_decide_eq_true_2 by done.
  reflexivity.
Qed.

Lemma seed_outside n i mem a :
  (∀ j : nat, (i ≤ j < i + n)%nat → a ≠ test_data + Z.of_nat j) →
  seed_test_data test_data n i mem a = mem a.
Proof.
  revert i mem. induction n as [|n IH]; intros i mem Ha; simpl; [done|].
  rewrite IH by (intros j Hj; apply Ha; lia).
  apply fn_lookup_insert_ne. intros Heq. by apply (Ha i); [lia|].
Qed.

Lemma seed_inside n i mem (j : nat) :
  (i ≤ j < i + n)%nat → (i + n ≤ 256)%nat →
  seed_test_data test_data n i mem (test_data + Z.of_nat j) = Z.of_nat j.
Proof.
  revert i mem. induction n as [|n IH]; intros i mem Hj Hn; simpl; [lia|].
  destruct (decide (j = i)) as [->|Hne].
  - rewrite seed_outside by (intros j' Hj'; lia).
    rewrite fn_lookup_insert. apply Z.mod_small. lia.
  - apply IH; lia.
Qed.

Lemma check_test_data_spec n i mem :
  check_test_data test_data n i mem = None ↔
  ∀ j : nat, (i ≤ j < i + n)%nat →
    mem (test_data + Z.of_nat j) = Z.of_nat j + TEST_DATA_ADJUST.
Proof.
  revert i. induction n as [|n IH]; intros i; simpl.
  - split; [intros _ j Hj; lia | done].
  - case_decide as Hbad.
    + split; [done|]. intros Hall. destruct Hbad. apply Hall. lia.
    + rewrite IH. split.
      * intros Hall j Hj. destruct (decide (j = i)) as [->|Hne].
        -- done.
        -- apply Hall. lia.
      * intros Hall j Hj. apply Hall. lia.
Qed.

Lemma segv_here_mapped debugger (q : process) :
  mapped_range (p_mapped q) (r8 (m_regs (p_machine q))) 8 = true →
  segv_here debugger q =
    Ret tt (with_debugger debugger
      (with_machine
         {| m_regs :=
              {| r8 := r8 (m_regs (p_machine q)); r9 := r9 (m_regs (p_machine q));
                 rax := le_combine (bytes_at (m_mem (p_machine q))
                                      (r8 (m_regs (p_machine q))) 8);
                 rsp := rsp (m_regs (p_machine q)) |};
            m_mem := m_mem (p_machine q) |} q)).
Proof. intros Hm. destruct debugger; cbn [segv_here]; by rewrite Hm. Qed.

Lemma adjust_lookup buf (j : nat) :
  (j < TEST_MEMORY_SIZE)%nat →
  adjust buf !! j = Some ((buf j + TEST_DATA_ADJUST) `mod` 256).
Proof.
  intros Hj. unfold adjust. rewrite list_lookup_fmap, lookup_seq_lt by done.
  done.
Qed.

Lemma bytes_at_eq mem addr n (f : nat → Z) :
  (∀ j : nat, (j < n)%nat → mem (addr + Z.of_nat j) = f j) →
  bytes_at mem addr n = f <$> seq 0 n.
Proof.
  intros Hf. unfold bytes_at. apply list_fmap_ext. intros i x Hix.
  apply lookup_seq in Hix as [-> Hi]. by apply Hf.
Qed.

Lemma seed_checks_pass n i (buf : nat → Z) :
  (∀ j : nat, (i ≤ j < i + n)%nat → buf j = Z.of_nat j) →
  seed_ok n i buf = true ∧ seed_events n i buf = [].
Proof.
  revert i. induction n as [|n IH]; intros i Hb; simpl; [done|].
  rewrite bool_decide_eq_true_2 by (apply Hb; lia).
  destruct (IH (S i)) as [-> ->]; [|done]. intros j Hj. apply Hb. lia.
Qed.

Lemma adjusted_bytes (buf : nat → Z) mem :
  (∀ j : nat, (j < TEST_MEMORY_SIZE)%nat → buf j = Z.of_nat j) →
  ∀ j : nat, (j < TEST_MEMORY_SIZE)%nat →
    Sim.store_bytes test_data (adjust buf) mem (test_data + Z.of_nat j)
    = Z.of_nat j + TEST_DATA_ADJUST.
Proof.
  intros Hb j Hj.
  rewrite (store_bytes_inside _ _ _ _ _ (adjust_lookup buf j Hj)), Hb by done.
  apply Z.mod_small. unfold TEST_MEMORY_SIZE, TEST_DATA_ADJUST in *. lia.
Qed.

(** C2.  With the null page unmapped, the test buffer mapped and the
    stack pointer pointing at mapped memory: the inferior has seeded its
    buffer with 0..7 when the load faults; the supervisor's read of the
    buffer, done while the thread is suspended, returns all eight bytes
    and they are 0..7, so every check of the memory test holds; it writes
    back 16..23; and after the resume the inferior finds [i + 0x10] at
    every index and returns true.  For any run at all, the inferior
    returns true exactly when every byte it re-reads is [i + 0x10], and
    false otherwise. *)
Theorem seeded_buffer_read_adjusted_and_verified
    (rest : list (machine → machine)) :
  mapped_range (p_mapped p) 0 8 = false →
  (∀ i : nat, (i < TEST_MEMORY_SIZE)%nat →
     p_mapped p (test_data + Z.of_nat i) = true) →
  mapped_range (p_mapped p) (rsp (m_regs (p_machine p))) 8 = true →
  let seeded :=
    {| m_regs := prep_regs test_data (m_regs (p_machine p));
       m_mem := seed_test_data test_data TEST_MEMORY_SIZE 0 (m_mem (p_machine p)) |} in
  let k := Sim.suspended (with_machine seeded p) test_data junk in
  let q := with_debugger (Sim.monitor p test_data junk :: rest) p in
  bytes_at (m_mem seeded) test_data TEST_MEMORY_SIZE = [0; 1; 2; 3; 4; 5; 6; 7]
  ∧ mapped_range (p_mapped p) (r8 (m_regs seeded)) 8 = false
  ∧ (∃ buf,
       read_inferior_memory Sim.INFERIOR test_data TEST_MEMORY_SIZE k = (8, buf, k)
       ∧ buf <$> seq 0 TEST_MEMORY_SIZE = [0; 1; 2; 3; 4; 5; 6; 7])
  ∧ (∃ w',
       test_memory_ops Sim.INFERIOR (p_main_thread p) (Sim.fresh k) = Done tt w'
       ∧ all_ok w' = true
       ∧ trace w' =
           [GetReg (p_main_thread p) REG_R9 test_data;
            ReadMem Sim.INFERIOR test_data TEST_MEMORY_SIZE 8;
            WriteMem Sim.INFERIOR test_data [16; 17; 18; 19; 20; 21; 22; 23] 8]
       ∧ bytes_at (Sim.mem_of (kern w')) test_data TEST_MEMORY_SIZE
         = [16; 17; 18; 19; 20; 21; 22; 23])
  ∧ (∃ q',
       test_prep_and_segv test_data q = Ret true q'
       ∧ bytes_at (m_mem (p_machine q')) test_data TEST_MEMORY_SIZE
         = [16; 17; 18; 19; 20; 21; 22; 23]
       ∧ p_trace q' = p_trace p ++ [Printf "About to segv"; Fault 0; SegvReturn true]
       ∧ p_debugger q' = rest)
  ∧ (∀ q0 ok q',
       test_prep_and_segv test_data q0 = Ret ok q' →
       (ok = true ↔
        ∀ i : nat, (i < TEST_MEMORY_SIZE)%nat →
          m_mem (p_machine q') (test_data + Z.of_nat i)
          = Z.of_nat i + TEST_DATA_ADJUST)).
Proof.
  intros Hnull Hbuf Hsp seeded k q.
  assert (∀ j : nat, (j < TEST_MEMORY_SIZE)%nat →
            m_mem seeded (test_data + Z.of_nat j) = Z.of_nat j) as Hseed.
  { intros j Hj. apply seed_inside; unfold TEST_MEMORY_SIZE in *; lia. }
  assert (bytes_at (m_mem seeded) test_data TEST_MEMORY_SIZE
          = [0; 1; 2; 3; 4; 5; 6; 7]) as Hseeded.
  { by rewrite (bytes_at_eq _ _ _ Z.of_nat). }
  set (buf := λ i : nat, if decide (i < 8)%nat
                         then m_mem seeded (test_data + Z.of_nat i) else junk i).
  assert (∀ j : nat, (j < TEST_MEMORY_SIZE)%nat → buf j = Z.of_nat j) as Hbuf_seed.
  { intros j Hj. unfold buf. rewrite decide_True by done. by apply Hseed. }
  assert (adjust buf = [16; 17; 18; 19; 20; 21; 22; 23]) as Hadjust.
  { unfold adjust. cbn [seq fmap list_fmap TEST_MEMORY_SIZE].
    rewrite !Hbuf_seed by (unfold TEST_MEMORY_SIZE; lia). done. }
  assert (∀ mem, bytes_at (Sim.store_bytes test_data (adjust buf) mem)
                   test_data TEST_MEMORY_SIZE
                 = [16; 17; 18; 19; 20; 21; 22; 23]) as Hwritten.
  { intros mem.
    by rewrite (bytes_at_eq _ _ _ (λ j, Z.of_nat j + TEST_DATA_ADJUST))
      by (by apply adjusted_bytes). }
  destruct (seed_checks_pass TEST_MEMORY_SIZE 0 buf) as [Hok Hevents].
  { intros j Hj. apply Hbuf_seed. lia. }
  split_and!.
  - done.
  - done.
  - exists buf. split.
    2:{ rewrite <- Hseeded. symmetry. apply bytes_at_eq. intros j Hj.
        unfold buf. by rewrite decide_True by (unfold TEST_MEMORY_SIZE in *; lia). }
    cbn [read_inferior_memory Sim.kernel]. unfold Sim.sim_read_memory.
    by rewrite transfer_len_full.
  - exists {| kern := Sim.with_mem
                        (Sim.store_bytes test_data (adjust buf) (m_mem seeded)) k;
              all_ok := true && seed_ok TEST_MEMORY_SIZE 0 buf;
              trace := []
                ++ [GetReg (p_main_thread p) REG_R9 test_data;
                    ReadMem Sim.INFERIOR test_data TEST_MEMORY_SIZE 8]
                ++ seed_events TEST_MEMORY_SIZE 0 buf
                ++ [WriteMem Sim.INFERIOR test_data (adjust buf) 8] |}.
    split; [exact (sim_test_memory_ops Sim.INFERIOR (p_main_thread p)
                     (Sim.fresh k) Hbuf)|].
    cbn [kern all_ok trace].
    rewrite Hok, Hevents. split_and!; [done|by rewrite Hadjust|].
    apply Hwritten.
  - unfold test_prep_and_segv, q.
    cbn [segv_here p_debugger with_debugger with_machine log p_machine p_mapped
         m_regs prep_regs r8].
    rewrite Hnull.
    rewrite monitor_effect by done.
    rewrite segv_here_mapped by done.
    cbn [p_machine with_machine with_debugger m_mem m_regs prep_regs r9].
    fold seeded. fold buf.
    match goal with
    | |- context [check_test_data test_data TEST_MEMORY_SIZE 0 ?mem] =>
        rewrite (proj2 (check_test_data_spec TEST_MEMORY_SIZE 0 mem))
          by (intros j Hj; apply (adjusted_bytes buf); [done|lia])
    end.
    eexists. split; [done|]. cbn [p_machine p_trace p_debugger log with_debugger with_machine m_mem].
    split_and!; [apply Hwritten| by rewrite <- !app_assoc | done].
  - intros q0 ok q' Hrun. unfold test_prep_and_segv in Hrun.
    destruct (segv_here _ _) as [[] q1|c q1|q1]; [|done..].
    destruct (check_test_data test_data TEST_MEMORY_SIZE 0 _) as [bad|] eqn:Hcheck;
      simplify_eq; cbn [log p_machine].
    + split; [done|]. intros Hall.
      assert (check_test_data test_data TEST_MEMORY_SIZE 0 (m_mem (p_machine q1)) = None)
        as Hnone; [|congruence].
      apply check_test_data_spec. intros j Hj. apply Hall. lia.
    + split; [|done]. intros _ j Hj.
      eapply check_test_data_spec; [done|lia].
Qed.




End SimFacts.

(** ** The whole program *)

Lemma monotone_initial : monotone [false].
Proof. intros [|i] [|j] v Hij Hi Hj; simplify_eq. Qed.

Lemma monotone_set_once : monotone [false; true].
Proof.
  intros i j v Hij Hi Hj.
  destruct i as [|[|i]]; simplify_eq.
  destruct j as [|[|j]]; simplify_eq; [lia|done].
Qed.

(** C9.  In every run of the program, whatever its role and whatever
    its environment does, the stores made to [done_tests] are none or a
    single store of true: every store writes true, there is at most one,
    the flag never goes back from true to false, and its final value is
    true exactly when the store happened. *)
Theorem done_tests_set_true_at_most_once (argv : list string)
    (env : Driver.environment) :
  let g := (Driver.main argv env).2 in
  (g = initial_globals ∨ g = store_done_tests true initial_globals)
  ∧ Forall (λ v, v = true) (done_tests_stores g)
  ∧ (length (done_tests_stores g) ≤ 1)%nat
  ∧ monotone (flag_history g)
  ∧ (done_tests g = true ↔ done_tests_stores g = [true]).
Proof.
  assert ((Driver.main argv env).2 = initial_globals
          ∨ (Driver.main argv env).2 = store_done_tests true initial_globals)
    as Hcases.
  { unfold Driver.main.
    destruct (Driver.is_child argv "inferior").
    - set (p := Inferior.boot _ _ _ _).
      pose proof (test_inferior_stores (Driver.env_test_data env)
                    (Driver.env_inbox env) p) as Hst.
      destruct (Inferior.test_inferior _ _ p) as [e p']. exact Hst.
    - destruct (Driver.is_child argv "segfault"); [by left|].
      unfold Driver.run_tests_under_watchdog.
      destruct (Driver.env_tests env) as [[success t]|].
      + destruct (Watchdog.watchdog_thread_func _).1; by right.
      + destruct (Watchdog.watchdog_thread_func _).1; by left. }
  intros g. fold g in Hcases. destruct Hcases as [-> | ->].
  - split_and!; [by left|constructor|simpl; lia|apply monotone_initial|done].
  - split_and!; [by right|by repeat constructor|simpl; lia
                 |apply monotone_set_once|done].
Qed.

(** ** The properties on the concrete runs *)

Section Witnesses.
Import Example.

(** The flag set during the fourth tick; the flag never set. *)
Lemma watchdog_exits_on_flag_or_kills_with_5_witness :
  Watchdog.watchdog_thread_func (λ i, bool_decide (3 ≤ i)%nat)
    = (ThreadExit,
       Watchdog.idle_ticks 3 0
         ++ [Watchdog.Sleep WATCHDOG_DURATION_TICK; Watchdog.Poll 3 true])
  ∧ Watchdog.watchdog_thread_func (λ _, false)
    = (ProcessExit 5,
       Watchdog.idle_ticks WATCHDOG_DURATION_TICKS 0 ++ [Watchdog.Fired]).
Proof.
  split.
  - apply (proj1 (watchdog_exits_on_flag_or_kills_with_5
                    (λ i, bool_decide (3 ≤ i)%nat)) 3%nat).
    + unfold WATCHDOG_DURATION_TICKS. lia.
    + intros j Hj. apply bool_decide_eq_false_2. lia.
    + reflexivity.
  - apply (proj2 (proj2 (watchdog_exits_on_flag_or_kills_with_5 (λ _, false)))).
    reflexivity.
Defined.

(** A crash request served by the supervisor of this file, and one where
    the second exception is resumed with the buffer untouched. *)
Lemma crash_reply_only_after_all_tries_witness :
  (∃ p' d,
     Inferior.dispatch buffer0 MSG_CRASH false monitored = Inferior.Ret false p'
     ∧ Inferior.p_trace p'
       = Inferior.p_trace monitored ++ d ++ [Inferior.Send MSG_RECOVERED_FROM_CRASH]
     ∧ Inferior.verdicts d = replicate NUM_SEGV_TRIES true)
  ∧ (∃ p',
       Inferior.dispatch buffer0 MSG_CRASH false neglected = Inferior.Exit 21 p'
       ∧ Inferior.sent (Inferior.p_trace p') = []
       ∧ Inferior.test_inferior buffer0 [Some MSG_CRASH; Some MSG_DONE] neglected
         = (Exited 21, p')).
Proof.
  split.
  - pose proof (crash_reply_only_after_all_tries buffer0 false monitored) as H.
    assert (Inferior.returned (Inferior.dispatch buffer0 MSG_CRASH false monitored)
            = Some false) as Hret by (vm_compute; reflexivity).
    destruct (Inferior.dispatch buffer0 MSG_CRASH false monitored)
      as [my' p'|code p'|p']; [|discriminate Hret..].
    destruct H as (-> & d & Htr & _ & Hv). exists p', d.
    split; [reflexivity|]. split; assumption.
  - pose proof (crash_reply_only_after_all_tries buffer0 false neglected) as H.
    assert (Inferior.exit_code (Inferior.dispatch buffer0 MSG_CRASH false neglected)
            = Some 21) as Hexit by (vm_compute; reflexivity).
    destruct (Inferior.dispatch buffer0 MSG_CRASH false neglected)
      as [my' p'|code p'|p']; [discriminate Hexit| |discriminate Hexit].
    destruct H as (-> & (d & k & _ & Htr & Hs & _) & Hloop).
    exists p'. split; [reflexivity|]. split.
    + rewrite Htr, sent_app, Hs. reflexivity.
    + apply (Hloop [Some MSG_DONE]); reflexivity.
Defined.

(** A number outside the enumeration, and a reply kind sent to the
    inferior. *)
Lemma unknown_message_logged_and_ignored_witness :
  recognized (MSG_UNKNOWN 99) = false
  ∧ Inferior.dispatch buffer0 (MSG_UNKNOWN 99) false process0
    = Inferior.Ret false
        (Inferior.log (Inferior.Printf "unknown message received") process0)
  ∧ recognized MSG_PONG = false
  ∧ Inferior.dispatch buffer0 MSG_PONG false process0
    = Inferior.Ret false
        (Inferior.log (Inferior.Printf "unknown message received") process0).
Proof.
  split; [reflexivity|]. split.
  - apply (unknown_message_logged_and_ignored buffer0 (MSG_UNKNOWN 99) []
             false process0 eq_refl).
  - split; [reflexivity|].
    apply (unknown_message_logged_and_ignored buffer0 MSG_PONG []
             false process0 eq_refl).
Defined.

(** [MSG_DONE] with a ping queued behind it. *)
Lemma done_ends_loop_and_exits_1234_witness :
  done_tests (Inferior.p_globals process0) = false
  ∧ Inferior.msg_loop_from buffer0 [Some MSG_DONE; Some MSG_PING] false process0
    = Inferior.Ret true process0.
Proof.
  split; [reflexivity|].
  apply (done_ends_loop_and_exits_1234 buffer0 [Some MSG_PING] process0 eq_refl).
Defined.

(** One fault-and-verify cycle of the example inferior. *)
Lemma seeded_buffer_read_adjusted_and_verified_witness :
  Inferior.mapped_range mapped0 0 8 = false
  ∧ Inferior.mapped_range mapped0 960 8 = true
  ∧ ∃ q',
      Inferior.test_prep_and_segv buffer0
        (Inferior.with_debugger [good_debugger] process0) = Inferior.Ret true q'
      ∧ Inferior.bytes_at (Inferior.m_mem (Inferior.p_machine q')) buffer0
          TEST_MEMORY_SIZE
        = [16; 17; 18; 19; 20; 21; 22; 23].
Proof.
  split; [reflexivity|]. split; [reflexivity|].
  assert (∀ i : nat, (i < TEST_MEMORY_SIZE)%nat →
            Inferior.p_mapped process0 (buffer0 + Z.of_nat i) = true) as Hbuf.
  { intros i Hi. apply bool_decide_eq_true_2.
    unfold buffer0. unfold TEST_MEMORY_SIZE in Hi. lia. }
  destruct (seeded_buffer_read_adjusted_and_verified buffer0 process0 junk0 []
              eq_refl Hbuf eq_refl)
    as (_ & _ & _ & _ & (q' & Hrun & Hbytes & _) & _).
  exists q'. split; [exact Hrun | exact Hbytes].
Defined.

(** A "gone" packet first: the loop is left with the counter at 0 and the
    worker fails; four fault packets: the worker returns true. *)
Lemma worker_completes_all_tries_or_reports_witness :
  let w := Sim.fresh (with_packets [gone_packet; fault_packet]) in
  let w1 :=
    {| Supervisor.kern := with_packets [fault_packet];
       Supervisor.all_ok := true;
       Supervisor.trace := [Supervisor.PortWait Sim.EPORT NO_ERROR 101 5] |} in
  Supervisor.segv_loop Sim.INFERIOR Sim.EPORT NUM_SEGV_TRIES 0 w
    = Supervisor.Done 0%nat w1
  ∧ Supervisor.wait_inferior_thread_worker Sim.INFERIOR Sim.EPORT w
    = Supervisor.Failed
        (Supervisor.fail "segv tests terminated prematurely" w1)
  ∧ Supervisor.completed
      (Supervisor.wait_inferior_thread_worker Sim.INFERIOR Sim.EPORT
         (Sim.fresh (with_packets
            [fault_packet; fault_packet; fault_packet; fault_packet])))
    = Some true.
Proof.
  intros w w1.
  pose proof (worker_completes_all_tries_or_reports Sim.INFERIOR Sim.EPORT w)
    as (_ & Hcount & Hgone).
  assert (Supervisor.segv_loop Sim.INFERIOR Sim.EPORT NUM_SEGV_TRIES 0 w
          = Supervisor.Done 0%nat w1) as Hloop.
  { apply (Hgone 3%nat 0%nat gone_packet (with_packets [fault_packet]));
      reflexivity. }
  split; [exact Hloop|]. split.
  - apply (Hcount 0%nat w1 Hloop). unfold NUM_SEGV_TRIES. lia.
  - vm_compute. reflexivity.
Defined.

(** A "thread starting" packet, and a fault packet for an unknown thread
    id. *)
Lemma malformed_stream_is_fatal_witness :
  Supervisor.wait_inferior_thread_worker Sim.INFERIOR Sim.EPORT
    (Sim.fresh (with_packets [start_packet; fault_packet]))
  = Supervisor.Failed
      {| Supervisor.kern := with_packets [fault_packet];
         Supervisor.all_ok := false;
         Supervisor.trace :=
           [Supervisor.PortWait Sim.EPORT NO_ERROR 100 5;
            Supervisor.Failure "wait-inf: unexpected exception type"] |}
  ∧ Supervisor.wait_inferior_thread_worker Sim.INFERIOR Sim.EPORT
      (Sim.fresh (with_packets [stray_packet; fault_packet]))
    = Supervisor.Failed
        {| Supervisor.kern := with_packets [fault_packet];
           Supervisor.all_ok := false;
           Supervisor.trace :=
             [Supervisor.PortWait Sim.EPORT NO_ERROR 1 999;
              Supervisor.GetChild Sim.INFERIOR 999 Sim.ERR_NOT_FOUND 0;
              Supervisor.Failure "mx_debug_task_get_child failed"] |}.
Proof.
  split.
  - apply (proj1 (malformed_stream_is_fatal Sim.INFERIOR Sim.EPORT
                    (Sim.fresh (with_packets [start_packet; fault_packet])))
             0%nat 0%nat start_packet (with_packets [fault_packet])).
    + reflexivity.
    + discriminate.
    + reflexivity.
  - apply (proj2 (malformed_stream_is_fatal Sim.INFERIOR Sim.EPORT
                    (Sim.fresh (with_packets [stray_packet; fault_packet])))
             0%nat 0%nat stray_packet (with_packets [fault_packet])
             Sim.ERR_NOT_FOUND 0 (with_packets [fault_packet])).
    + reflexivity.
    + discriminate.
    + reflexivity.
    + reflexivity.
    + discriminate.
Defined.

(** The buffer register points at unmapped memory: both transfers are
    short, each is done once, and [all_ok] ends up cleared. *)
Lemma transfers_checked_never_retried_witness :
  let w := Sim.fresh (with_packets []) in
  ∃ w' d,
    Supervisor.test_memory_ops Sim.INFERIOR 5 w = Supervisor.Done tt w'
    ∧ Supervisor.trace w' = Supervisor.trace w ++ d
    ∧ length (List.filter Supervisor.is_read d) = 1%nat
    ∧ length (List.filter Supervisor.is_write d) = 1%nat
    ∧ Supervisor.all_ok
        (Supervisor.final (Supervisor.test_memory_ops Sim.INFERIOR 5 w)) = false.
Proof.
  intros w.
  destruct (transfers_checked_never_retried Sim.INFERIOR 5 w)
    as (addr & k1 & ssize & buf & k2 & ssize' & k3 & w' & d & _ & _ & _
        & Hrun & _ & Htr & Hr & Hw & _).
  exists w', d. split; [exact Hrun|]. split; [exact Htr|].
  rewrite Hr, Hw. split; [reflexivity|]. split; [reflexivity|].
  vm_compute. reflexivity.
Defined.


(** The three roles of [main]. *)
Lemma done_tests_set_true_at_most_once_witness :
  done_tests_stores (Driver.main ["debugger"; "inferior"] environment0).2 = [true]
  ∧ done_tests_stores (Driver.main ["debugger"] environment0).2 = [true]
  ∧ done_tests_stores (Driver.main ["debugger"; "segfault"] environment0).2 = [].
Proof.
  split; [|split].
  - apply (done_tests_set_true_at_most_once ["debugger"; "inferior"] environment0).
    vm_compute. reflexivity.
  - apply (done_tests_set_true_at_most_once ["debugger"] environment0).
    vm_compute. reflexivity.
  - destruct (done_tests_set_true_at_most_once ["debugger"; "segfault"] environment0)
      as ([Hg | Hg] & _); rewrite Hg.
    + reflexivity.
    + exfalso.
      assert (done_tests (Driver.main ["debugger"; "segfault"] environment0).2
              = false) as Hflag by (vm_compute; reflexivity).
      rewrite Hg in Hflag. discriminate Hflag.
Defined.

End Witnesses.


(** ** The exception monitor's bookkeeping, for any kernel *)

Section MonitorBookkeeping.
Import Supervisor Handles.
Context `{Abi} `{Kernel K}.

Lemma omap_failures {A} (f : event → option A) (tr : list event) :
  (∀ msg, f (Failure msg) = None) →
  Forall (λ e, is_failure e = true) tr → omap f tr = [].
Proof.
  intros Hf. induction 1 as [|e tr He _ IH]; [done|].
  destruct e; try done. simpl. by rewrite Hf.
Qed.

Lemma clean_app a b : clean (a ++ b) = clean a && clean b.
Proof. apply forallb_app. Qed.

Lemma clean_expected cond msg : clean (expected cond msg) = cond.
Proof. by destruct cond. Qed.

Lemma clean_seed_events n i buf : clean (seed_events n i buf) = seed_ok n i buf.
Proof.
  revert i. induction n as [|n IH]; intros i; simpl; [done|].
  by rewrite clean_app, clean_expected, IH.
Qed.

(** Reading a trace built from single events and failed checks. *)
Ltac read_trace f :=
  unfold f;
  repeat first
    [ rewrite omap_app
    | progress cbn [app omap list_omap]
    | rewrite (omap_failures _ (expected _ _)) by first [done | apply expected_failures]
    | rewrite (omap_failures _ (seed_events _ _ _))
        by first [done | apply seed_events_failures] ];
  try done.

Ltac tally f :=
  unfold count;
  repeat first
    [ rewrite List.filter_app
    | progress cbn [app List.filter f]
    | rewrite (filter_failures f)
        by first [done | apply expected_failures | apply seed_events_failures] ];
  try done.

(** The same for a short explicit trace. *)
Ltac audit_short :=
  split_and!; unfold count; cbn;
  rewrite ?bool_decide_eq_false_2 by done;
  rewrite ?andb_true_r, ?andb_false_r; done.

Ltac leaf :=
  unfold balanced; cbn [final kern all_ok trace fail];
  eexists; split; [by rewrite <- ?app_assoc|].

Ltac clean_trace :=
  repeat first
    [ rewrite clean_app | rewrite clean_expected | rewrite clean_seed_events ];
  cbn [clean forallb is_failure negb andb];
  rewrite ?andb_true_r, ?andb_false_r, ?andb_true_l, ?andb_assoc;
  try done.

(** One pass of the loop. *)
Lemma worker_iteration_balanced inferior eport (w : world K) :
  balanced w (final (worker_iteration inferior eport w)).
Proof.
  unfold worker_iteration, port_wait, mbind, M_bind, bind.
  destruct (mx_port_wait eport (kern w)) as [[[status pkt] k]|].
  2:{ exists []. split; [cbn; by rewrite app_nil_r|]. audit_short. }
  unfold ASSERT at 1. case_bool_decide as Hstatus; cbn [kern all_ok trace fail].
  2:{ leaf. audit_short. }
  subst status.
  case_bool_decide as Hgone.
  { cbn [mret M_ret ret]. leaf. audit_short. }
  destruct (MX_EXCP_IS_ARCH (pkt_type pkt)).
  2:{ unfold ASSERT at 1. leaf. audit_short. }
  cbn [mret M_ret ret].
  unfold sys at 1. cbn [kern all_ok trace].
  destruct (mx_object_get_child inferior (pkt_tid pkt) k) as [[cstatus thread] k2].
  cbn [fst snd]. unfold ASSERT at 1.
  case_bool_decide as Hchild; cbn [kern all_ok trace fail].
  2:{ leaf. audit_short. }
  subst cstatus.
  unfold sys_ at 1. cbn [kern all_ok trace].
  destruct (get_uint64_register thread REG_R9 (dump_inferior_regs thread k2))
    as [addr k3] eqn:Hreg.
  destruct (read_inferior_memory inferior addr TEST_MEMORY_SIZE k3)
    as [[ssize buf] k4] eqn:Hread.
  destruct (write_inferior_memory inferior addr (adjust buf) k4)
    as [ssize' k5] eqn:Hwrite.
  erewrite test_memory_ops_run by done. cbn [kern all_ok trace].
  destruct (get_uint64_register thread REG_SP k5) as [sp k6] eqn:Hsp.
  erewrite fix_inferior_segv_run by done. cbn [kern all_ok trace].
  unfold sys at 1. cbn [kern all_ok trace].
  destruct (mx_task_resume thread (set_uint64_register thread REG_R8 sp k6))
    as [rstatus k7].
  unfold sys_ at 1. cbn [kern all_ok trace]. unfold ASSERT at 1.
  case_bool_decide as Hresume; cbn [mret M_ret ret]; leaf.
  - split_and!.
    + read_trace closed. read_trace opened.
    + read_trace resumed. read_trace opened.
    + read_trace repaired. read_trace opened.
    + tally is_read. read_trace opened.
    + tally is_write. read_trace opened.
    + clean_trace.
  - split_and!.
    + read_trace closed. read_trace opened.
    + read_trace resumed. read_trace opened.
    + read_trace repaired. read_trace opened.
    + tally is_read. read_trace opened.
    + tally is_write. read_trace opened.
    + clean_trace.
Qed.

Lemma balanced_refl (w : world K) : balanced w w.
Proof. exists []. split; [by rewrite app_nil_r|]. audit_short. Qed.

Lemma balanced_trans (a b c : world K) : balanced a b → balanced b c → balanced a c.
Proof.
  intros (d1 & Ht1 & Hc1 & Hr1 & Hf1 & Hrd1 & Hwr1 & Hok1)
         (d2 & Ht2 & Hc2 & Hr2 & Hf2 & Hrd2 & Hwr2 & Hok2).
  exists (d1 ++ d2). unfold closed, opened, resumed, repaired in *.
  rewrite !omap_app, !count_app, length_app, clean_app.
  split_and!; try congruence.
  - by rewrite Ht2, Ht1, <- app_assoc.
  - by rewrite Hok2, Hok1, andb_assoc.
Qed.

Lemma balanced_fail msg (w : world K) : balanced w (fail msg w).
Proof. leaf. audit_short. Qed.

Lemma segv_loop_balanced inferior eport n i (w : world K) :
  balanced w (final (segv_loop inferior eport n i w)).
Proof.
  revert i w. induction n as [|n IH]; intros i w; [apply balanced_refl|].
  cbn [segv_loop]. unfold mbind, M_bind, bind.
  pose proof (worker_iteration_balanced inferior eport w) as Hit.
  destruct (worker_iteration inferior eport w) as [[] w1|w1|w1];
    cbn [final] in Hit; try done.
  eapply balanced_trans; [exact Hit | apply IH].
Qed.

Lemma worker_balanced inferior eport (w : world K) :
  balanced w (final (wait_inferior_thread_worker inferior eport w)).
Proof.
  unfold wait_inferior_thread_worker, mbind, M_bind, bind.
  pose proof (segv_loop_balanced inferior eport NUM_SEGV_TRIES 0 w) as Hloop.
  destruct (segv_loop inferior eport NUM_SEGV_TRIES 0 w) as [j w1|w1|w1];
    cbn [final] in Hloop; try done.
  unfold ASSERT. case_bool_decide; cbn [mret M_ret ret final]; [done|].
  eapply balanced_trans; [exact Hloop | apply balanced_fail].
Qed.

(** X1.  In every run of the exception-monitor worker, with any kernel and
    however the run ends, each thread handle that a successful lookup
    returned is used for exactly one memory read, one memory write and one
    repair of [r8], is resumed once and is closed once, in the order the
    handles were obtained; no handle is left open, also when the resume
    fails, and nothing is read, written, resumed or closed without a
    successful lookup before it. *)
Theorem worker_closes_every_handle inferior eport (w : world K) :
  ∃ d,
    trace (final (wait_inferior_thread_worker inferior eport w)) = trace w ++ d
    ∧ closed d = opened d
    ∧ resumed d = opened d
    ∧ repaired d = opened d
    ∧ count is_read d = length (opened d)
    ∧ count is_write d = length (opened d).
Proof.
  destruct (worker_balanced inferior eport w)
    as (d & Ht & Hc & Hr & Hf & Hrd & Hwr & _).
  by exists d.
Qed.

(** X2.  In every run of the worker, [all_ok] is true at the end exactly
    when it was true at the start and no [EXPECT_] or [ASSERT_] failed on
    the way: a failure is never lost and [all_ok] is never set back to
    true. *)
Theorem worker_all_ok_iff_no_failure inferior eport (w : world K) :
  ∃ d,
    trace (final (wait_inferior_thread_worker inferior eport w)) = trace w ++ d
    ∧ all_ok (final (wait_inferior_thread_worker inferior eport w))
      = all_ok w && clean d
    ∧ (all_ok w = false →
       all_ok (final (wait_inferior_thread_worker inferior eport w)) = false)
    ∧ (all_ok (final (wait_inferior_thread_worker inferior eport w)) = true →
       ∀ msg, Failure msg ∉ d).
Proof.
  destruct (worker_balanced inferior eport w) as (d & Ht & _ & _ & _ & _ & _ & Hok).
  exists d. split_and!; [done..| |].
  - intros Hw. by rewrite Hok, Hw.
  - intros Hend msg Hin. rewrite Hok in Hend.
    apply andb_true_iff in Hend as [_ Hclean].
    unfold clean in Hclean. rewrite forallb_forall in Hclean.
    apply list_elem_of_In in Hin. by apply Hclean in Hin.
Qed.

(** The entry loop of the thread-list test. *)
Lemma verify_entries_tally inferior rec n i (w : world K) :
  ∃ w' d,
    verify_entries inferior rec n i w = Done tt w'
    ∧ trace w' = trace w ++ d
    ∧ count is_lookup d = n ∧ count is_info d = n
    ∧ count is_close d = 0%nat
    ∧ count is_read d = 0%nat ∧ count is_write d = 0%nat
    ∧ all_ok w' = all_ok w && clean d.
Proof.
  revert i w. induction n as [|n IH]; intros i w.
  { exists w, []. rewrite app_nil_r. split_and!; try done.
    by rewrite andb_true_r. }
  cbn [verify_entries]. unfold mbind, M_bind, bind, sys. cbn [kern all_ok trace].
  destruct (mx_object_get_child inferior (rec i) (kern w)) as [[status thread] k1].
  cbn [fst snd]. rewrite EXPECT_run. cbn [kern all_ok trace].
  destruct (mx_object_get_info_handle_basic thread k1) as [[size type] k2].
  cbn [fst snd]. rewrite !EXPECT_run. cbn [kern all_ok trace].
  match goal with |- context [verify_entries _ _ _ _ ?w1] =>
    destruct (IH (S i) w1)
      as (w' & d & Hrun & Htr & Hl & Hi & Hc & Hrd & Hwr & Hok) end.
  rewrite Hrun. eexists w', _. split; [done|]. cbn [kern all_ok trace] in *.
  split; [by rewrite Htr, <- !app_assoc|].
  rewrite !count_app, Hl, Hi, Hc, Hrd, Hwr.
  split_and!.
  - tally is_lookup.
  - tally is_info.
  - tally is_close.
  - tally is_read.
  - tally is_write.
  - rewrite Hok. clean_trace.
Qed.

Lemma thread_list_test_tally (w : world K) :
  ∃ d,
    match debugger_thread_list_test w with
    | Done b w' => trace w' = trace w ++ d ∧ b = clean d
    | Failed w' | Stuck w' => trace w' = trace w ++ d
    end
    ∧ count is_close d = 0%nat
    ∧ count is_read d = 0%nat ∧ count is_write d = 0%nat
    ∧ count is_info d = count is_lookup d.
Proof.
  unfold debugger_thread_list_test, BEGIN_TEST, mbind, M_bind, bind.
  unfold sys at 1. cbn [kern all_ok trace].
  destruct (setup_inferior "inferior" (kern w)) as [[[[pipe inferior] eport]|] k1].
  2:{ unfold return_false. cbn [trace]. eexists. split; [done|].
      split_and!; done. }
  unfold sys_ at 1, recv_or_return. cbn [kern all_ok trace].
  destruct (recv_msg pipe (send_msg pipe MSG_START_EXTRA_THREADS k1))
    as [[[msg|] k2]|].
  2:{ cbn [trace]. eexists. split; [by rewrite <- !app_assoc|].
      split_and!; done. }
  2:{ cbn [trace]. eexists. split; [by rewrite <- !app_assoc|].
      split_and!; done. }
  rewrite EXPECT_run. unfold sys at 1. cbn [kern all_ok trace].
  destruct (mx_object_get_info_process_threads inferior _ k2) as [info k3].
  unfold ASSERT at 1. case_bool_decide as Hst; cbn [kern all_ok trace fail].
  2:{ eexists. split; [by rewrite <- !app_assoc|].
      split_and!; [tally is_close|tally is_read|tally is_write|].
      tally is_info. tally is_lookup. }
  unfold ASSERT at 1. case_bool_decide as Hsz; cbn [kern all_ok trace fail].
  2:{ eexists. split; [by rewrite <- !app_assoc|].
      split_and!; [tally is_close|tally is_read|tally is_write|].
      tally is_info. tally is_lookup. }
  match goal with |- context [verify_entries _ _ _ _ ?w1] =>
    destruct (verify_entries_tally inferior (ti_koid info) (ti_count info) 0%nat w1)
      as (w2 & d & Hrun & Htr & Hl & Hi & Hc & Hrd & Hwr & Hok) end.
  rewrite Hrun. cbn [kern all_ok trace] in *.
  unfold sys at 1. cbn [kern all_ok trace].
  destruct (shutdown_inferior pipe inferior eport (kern w2)) as [[] k4].
  - unfold END_TEST. cbn [trace all_ok].
    eexists. split; [split; [by rewrite Htr, <- !app_assoc|] |].
    + rewrite Hok. clean_trace.
    + rewrite !count_app, Hl, Hi, Hc, Hrd, Hwr.
      split_and!.
      * tally is_close.
      * tally is_read.
      * tally is_write.
      * tally is_info. tally is_lookup.
  - unfold return_false. cbn [trace].
    eexists. split; [by rewrite Htr, <- !app_assoc|].
    rewrite !count_app, Hl, Hi, Hc, Hrd, Hwr.
    split_and!.
    + tally is_close.
    + tally is_read.
    + tally is_write.
    + tally is_info. tally is_lookup.
Qed.

(** X3.  The thread-list test, with any kernel and however it ends, calls
    [tu_handle_close] on none of the thread handles it obtains and touches
    no memory of the inferior; it asks for the basic info of a handle once
    per lookup; and a run that reaches [END_TEST] returns true exactly
    when no check failed. *)
Theorem thread_list_test_closes_no_handle (w : world K) :
  ∃ d,
    trace (final (debugger_thread_list_test w)) = trace w ++ d
    ∧ count is_close d = 0%nat
    ∧ count is_read d = 0%nat ∧ count is_write d = 0%nat
    ∧ count is_info d = count is_lookup d
    ∧ (∀ b, completed (debugger_thread_list_test w) = Some b → b = clean d).
Proof.
  destruct (thread_list_test_tally w) as (d & Hrun & Hc & Hrd & Hwr & Hinfo).
  exists d.
  destruct (debugger_thread_list_test w) as [b w'|w'|w']; cbn [final completed].
  - destruct Hrun as [Htr Hb]. split_and!; try done. by intros ? [= <-].
  - split_and!; done.
  - split_and!; done.
Qed.

End MonitorBookkeeping.

(** ** The message loop as a whole *)

Section MessageLoopFacts.
Import Inferior Protocol.
Variable test_data : Z.


(** What one message adds to the trace: its reply when the [switch]
    is left normally, and no message when the process exits or hangs,
    which only [MSG_CRASH] can cause. *)
Lemma dispatch_replies msg my_done_tests p :
  ∃ d,
    p_trace (final (dispatch test_data msg my_done_tests p)) = p_trace p ++ d
    ∧ match dispatch test_data msg my_done_tests p with
      | Ret my' _ =>
          sent d = option_list (reply msg)
          ∧ my' = my_done_tests || bool_decide (msg = MSG_DONE)
      | Exit code _ =>
          sent d = [] ∧ msg = MSG_CRASH ∧ code = EXIT_BAD_RESUME_DATA
          ∧ last (verdicts d) = Some false
      | Blocked _ => sent d = [] ∧ msg = MSG_CRASH
      end.
Proof.
  destruct msg.
  - exists []. cbn. rewrite app_nil_r, orb_true_r. done.
  - exists [Send MSG_PONG]. cbn. by rewrite orb_false_r.
  - exists [Printf "unknown message received"]. cbn. by rewrite orb_false_r.
  - unfold dispatch. pose proof (segv_tries_trace test_data NUM_SEGV_TRIES p) as Ht.
    destruct (segv_tries test_data NUM_SEGV_TRIES p) as [[] p1|c p1|p1].
    + destruct Ht as (d & Htr & Hs & Hv).
      exists (d ++ [Send MSG_RECOVERED_FROM_CRASH]). cbn [final].
      unfold send_msg. rewrite trace_log, Htr, <- app_assoc, sent_app, Hs.
      by rewrite orb_false_r.
    + destruct Ht as (-> & d & k & Hk & Htr & Hs & Hv).
      exists d. cbn [final]. split_and!; try done.
      by rewrite Hv, last_snoc.
    + destruct Ht as (d & k & Hk & Htr & Hs & Hv). by exists d.
  - exists [Printf "unknown message received"]. cbn. by rewrite orb_false_r.
  - destruct (start_extra_threads_spec NUM_EXTRA_THREADS p)
      as (d & Htr & Hs & _).
    exists (d ++ [Send MSG_EXTRA_THREADS_STARTED]).
    unfold dispatch. cbn [final]. unfold send_msg.
    rewrite trace_log, Htr, <- app_assoc, sent_app, Hs.
    by rewrite orb_false_r.
  - exists [Printf "unknown message received"]. cbn. by rewrite orb_false_r.
  - exists [Printf "unknown message received"]. cbn. by rewrite orb_false_r.
Qed.

Lemma replies_cons msg inbox :
  msg ≠ MSG_DONE →
  omap reply (served (Some msg :: inbox))
  = option_list (reply msg) ++ omap reply (served inbox).
Proof. intros Hne. destruct msg; try done. Qed.

Lemma msg_loop_from_finished inbox p :
  msg_loop_from test_data inbox true p = Ret true p.
Proof. destruct inbox; cbn [msg_loop_from]; by rewrite andb_false_r. Qed.

(** The loop answers the messages in front of the first [MSG_DONE] or
    failed receive, in order, and sends nothing else. *)
Lemma msg_loop_from_replies inbox p :
  done_tests (p_globals p) = false →
  ∃ d,
    p_trace (final (msg_loop_from test_data inbox false p)) = p_trace p ++ d
    ∧ sent d `prefix_of` omap reply (served inbox)
    ∧ match msg_loop_from test_data inbox false p with
      | Ret ok _ =>
          sent d = omap reply (served inbox)
          ∧ inbox !! length (served inbox)
            = Some (if ok then Some MSG_DONE else None)
      | Exit code _ =>
          code = EXIT_BAD_RESUME_DATA ∧ last (verdicts d) = Some false
          ∧ Some MSG_CRASH ∈ inbox
      | Blocked _ => True
      end.
Proof.
  revert p. induction inbox as [|[msg|] inbox IH]; intros p Hflag.
  - exists []. cbn [msg_loop_from]. rewrite Hflag. cbn. by rewrite app_nil_r.
  - rewrite msg_loop_from_step by done.
    destruct (dispatch_replies msg false p) as (d1 & Htr1 & Hd1).
    pose proof (dispatch_globals test_data msg false p) as Hg.
    destruct (dispatch test_data msg false p) as [my' p1|c p1|p1];
      cbn [final] in Htr1, Hg.
    + destruct Hd1 as [Hs1 ->]. cbn [orb].
      destruct (decide (msg = MSG_DONE)) as [->|Hne].
      * rewrite bool_decide_eq_true_2 by done. rewrite msg_loop_from_finished.
        exists d1. cbn [final]. split; [done|]. cbn in Hs1. rewrite Hs1. done.
      * rewrite bool_decide_eq_false_2 by done.
        destruct (IH p1) as (d2 & Htr2 & Hpre & Hd2); [by rewrite Hg|].
        exists (d1 ++ d2). rewrite replies_cons by done.
        split; [by rewrite Htr2, Htr1, <- app_assoc|].
        rewrite sent_app, Hs1.
        split; [by apply prefix_app|].
        destruct (msg_loop_from test_data inbox false p1) as [ok p2|c p2|p2].
        -- destruct Hd2 as [Hs2 Hstop]. rewrite Hs2. split; [done|].
           assert (served (Some msg :: inbox) = msg :: served inbox) as ->
             by (by destruct msg).
           done.
        -- destruct Hd2 as (-> & Hv & Hin). rewrite verdicts_app.
           split_and!; [done| |by apply elem_of_cons; right].
           destruct (verdicts d2) as [|v vs] eqn:Hvs; [done|].
           by rewrite last_app, Hv.
        -- done.
    + destruct Hd1 as (Hs1 & -> & -> & Hv).
      exists d1. rewrite Hs1. split_and!; try done.
      * apply prefix_nil.
      * apply elem_of_cons; by left.
    + destruct Hd1 as (Hs1 & ->).
      exists d1. rewrite Hs1. split_and!; try done. apply prefix_nil.
  - exists []. cbn [msg_loop_from]. rewrite Hflag. cbn. by rewrite app_nil_r.
Qed.

(** X4.  Started with the flag clear, [msg_loop] sends exactly the replies
    owed to the messages in front of the first [MSG_DONE] or failed
    receive, in the order of the requests, and nothing else: what it has
    sent is at any end a prefix of these replies, and all of them when it
    returns; it returns true when what stopped it was [MSG_DONE] and false
    when it was a failed receive. *)
Theorem msg_loop_answers_in_order inbox p :
  done_tests (p_globals p) = false →
  ∃ d,
    p_trace (final (msg_loop test_data inbox p)) = p_trace p ++ d
    ∧ sent d `prefix_of` omap reply (served inbox)
    ∧ (∀ ok p', msg_loop test_data inbox p = Ret ok p' →
         sent d = omap reply (served inbox)
         ∧ inbox !! length (served inbox)
           = Some (if ok then Some MSG_DONE else None)).
Proof.
  intros Hflag. unfold msg_loop.
  destruct (msg_loop_from_replies inbox p Hflag) as (d & Htr & Hpre & Hend).
  exists d. split_and!; [done..|].
  intros ok p' Hrun. by rewrite Hrun in Hend.
Qed.

(** X5.  [test_inferior] ends the process with 1234, 20 or 21, or hangs;
    it never crashes, never exits with another code, and so never
    returns to [main].  From a clear flag, 1234 needs a [MSG_DONE] in the
    inbox, 20 a failed receive and 21 a [MSG_CRASH] whose last cycle found
    bad data; the flag is true at the end exactly when the code is 1234. *)
Theorem test_inferior_exit_codes inbox p :
  done_tests (p_globals p) = false →
  let '(e, p') := test_inferior test_data inbox p in
  (done_tests (p_globals p') = true ↔ e = Exited EXIT_INFERIOR_DONE)
  ∧ match e with
    | Exited code =>
        (code = 1234 ∧ Some MSG_DONE ∈ inbox)
        ∨ (code = 20 ∧ None ∈ inbox)
        ∨ (code = 21 ∧ Some MSG_CRASH ∈ inbox
           ∧ last (verdicts (p_trace p')) = Some false)
    | Hung => True
    | Crashed => False
    end.
Proof.
  intros Hflag. unfold test_inferior, msg_loop.
  destruct (msg_loop_from_replies inbox p Hflag) as (d & Htr & Hpre & Hend).
  pose proof (msg_loop_from_globals test_data inbox false p) as Hg.
  destruct (msg_loop_from test_data inbox false p) as [[] p1|c p1|p1];
    cbn [final] in Htr, Hg.
  - destruct Hend as [_ Hstop]. split; [done|]. left. split; [done|].
    by eapply list_elem_of_lookup_2.
  - destruct Hend as [_ Hstop]. rewrite Hg, Hflag. split; [done|].
    right; left. split; [done|]. by eapply list_elem_of_lookup_2.
  - destruct Hend as (-> & Hv & Hin). rewrite Hg, Hflag. split; [done|].
    right; right. split_and!; [done..|].
    rewrite Htr, verdicts_app.
    destruct (verdicts d) as [|v vs] eqn:Hvs; [done|].
    by rewrite last_app, Hv.
  - rewrite Hg, Hflag. done.
Qed.

(** X6.  Once the loop has returned or the process has exited, what
    follows in the inbox is never read: the run is the same whatever
    comes after. *)
Theorem msg_loop_reads_nothing_after_its_end inbox rest my_done_tests p :
  is_Some (returned (msg_loop_from test_data inbox my_done_tests p))
  ∨ is_Some (exit_code (msg_loop_from test_data inbox my_done_tests p)) →
  msg_loop_from test_data (inbox ++ rest) my_done_tests p
  = msg_loop_from test_data inbox my_done_tests p.
Proof.
  revert my_done_tests p.
  induction inbox as [|[msg|] inbox IH]; intros my_done_tests p Hend.
  - cbn [app] in *. cbn [msg_loop_from] in Hend.
    destruct (negb (done_tests (p_globals p)) && negb my_done_tests) eqn:Hrun.
    + cbn in Hend. destruct Hend as [[? [=]]|[? [=]]].
    + destruct rest as [|[?|] ?]; cbn [msg_loop_from]; by rewrite Hrun.
  - cbn [app msg_loop_from] in *.
    destruct (negb (done_tests (p_globals p)) && negb my_done_tests); [|done].
    destruct (dispatch test_data msg my_done_tests p) as [my' p1|c p1|p1];
      [|done..].
    by apply IH.
  - cbn [app msg_loop_from]. done.
Qed.





(** X8.  The check after the resume stops at the first byte that is not
    [i + TEST_DATA_ADJUST]: the index it reports is in range, the byte
    there is bad, and every byte before it is good. *)
Theorem check_test_data_first_bad n i mem (k : nat) :
  check_test_data test_data n i mem = Some k ↔
  (i ≤ k < i + n)%nat
  ∧ mem (test_data + Z.of_nat k) ≠ Z.of_nat k + TEST_DATA_ADJUST
  ∧ ∀ j : nat, (i ≤ j < k)%nat →
      mem (test_data + Z.of_nat j) = Z.of_nat j + TEST_DATA_ADJUST.
Proof.
  revert i. induction n as [|n IH]; intros i; cbn [check_test_data].
  - split; [done|]. intros [? _]. lia.
  - case_decide as Hbad.
    + split.
      * intros [= <-]. split; [lia|]. split; [done|]. intros j Hj. lia.
      * intros (Hk & Hkbad & Hgood).
        destruct (decide (k = i)) as [->|Hne]; [done|].
        destruct Hbad. apply Hgood. lia.
    + rewrite IH. split.
      * intros (Hk & Hkbad & Hgood). split; [lia|]. split; [done|].
        intros j Hj. destruct (decide (j = i)) as [->|Hne]; [done|].
        apply Hgood. lia.
      * intros (Hk & Hkbad & Hgood).
        assert (k ≠ i) by (intros ->; done).
        split; [lia|]. split; [done|]. intros j Hj. apply Hgood. lia.
Qed.

(** X11.  When the load from address 0 does not fault (the null page is
    mapped) nobody adjusts the buffer: the cycle finds byte 0 still 0,
    returns false without having raised an exception or used a response
    of the debugger, and [MSG_CRASH] ends the process with code 21 after
    this one cycle, nothing having been sent. *)
Theorem unfaulting_load_exits_21 my_done_tests p :
  mapped_range (p_mapped p) 0 8 = true →
  ∃ p',
    test_prep_and_segv test_data p = Ret false p'
    ∧ dispatch test_data MSG_CRASH my_done_tests p = Exit 21 p'
    ∧ p_trace p' = p_trace p ++ [Printf "About to segv"; SegvReturn false]
    ∧ p_debugger p' = p_debugger p.
Proof.
  intros Hnull.
  assert (∃ p', test_prep_and_segv test_data p = Ret false p'
                ∧ p_trace p' = p_trace p ++ [Printf "About to segv"; SegvReturn false]
                ∧ p_debugger p' = p_debugger p) as (p' & Hrun & Htr & Hdbg).
  { unfold test_prep_and_segv.
    rewrite segv_here_mapped by exact Hnull.
    cbn [p_machine with_machine with_debugger m_mem].
    destruct (check_test_data test_data TEST_MEMORY_SIZE 0 _) as [bad|] eqn:Hcheck.
    - eexists. split; [reflexivity|].
      cbn [p_trace p_debugger log with_debugger with_machine].
      by rewrite <- app_assoc.
    - exfalso.
      pose proof (proj1 (check_test_data_spec test_data _ _ _) Hcheck 0%nat) as Hbyte.
      rewrite seed_inside in Hbyte by (unfold TEST_MEMORY_SIZE; lia).
      unfold TEST_MEMORY_SIZE, TEST_DATA_ADJUST in Hbyte. lia. }
  exists p'. split_and!; [done| |done..].
  unfold dispatch, NUM_SEGV_TRIES. cbn [segv_tries]. by rewrite Hrun.
Qed.

End MessageLoopFacts.

(** ** The two sides together, on the simulated kernel *)

Section MonitorOnSim.
Import Inferior Supervisor.

Lemma length_adjust buf : length (adjust buf) = TEST_MEMORY_SIZE.
Proof. unfold adjust. by rewrite length_fmap, length_seq. Qed.

(** [test_memory_ops] on the simulated kernel, whatever is mapped at the
    buffer: [n] bytes are transferred each way. *)
Lemma sim_test_memory_ops_short inferior thread (w : world Sim.state) :
  let k := kern w in
  let addr := r9 (Sim.regs_of k) in
  let n := Sim.transfer_len (p_mapped (Sim.proc k)) addr TEST_MEMORY_SIZE in
  let buf : nat → Z :=
    λ i, if decide (i < n)%nat then Sim.mem_of k (addr + Z.of_nat i)
         else Sim.junk k i in
  test_memory_ops inferior thread w =
    Done tt
      {| kern := Sim.with_mem
                   (Sim.store_bytes addr (take n (adjust buf)) (Sim.mem_of k)) k;
         all_ok := all_ok w
                   && bool_decide (Z.of_nat n = Z.of_nat TEST_MEMORY_SIZE)
                   && seed_ok TEST_MEMORY_SIZE 0 buf
                   && bool_decide (Z.of_nat n = Z.of_nat TEST_MEMORY_SIZE);
         trace := trace w
           ++ [GetReg thread REG_R9 addr;
               ReadMem inferior addr TEST_MEMORY_SIZE (Z.of_nat n)]
           ++ expected (bool_decide (Z.of_nat n = Z.of_nat TEST_MEMORY_SIZE))
                "read_inferior_memory: short read"
           ++ seed_events TEST_MEMORY_SIZE 0 buf
           ++ [WriteMem inferior addr (adjust buf) (Z.of_nat n)]
           ++ expected (bool_decide (Z.of_nat n = Z.of_nat TEST_MEMORY_SIZE))
                "write_inferior_memory: short write" |}.
Proof.
  intros k addr n buf.
  apply (test_memory_ops_run inferior thread w addr k (Z.of_nat n) buf k
           (Z.of_nat n)).
  - done.
  - done.
  - cbn [write_inferior_memory Sim.kernel]. unfold Sim.sim_write_memory.
    by rewrite length_adjust.
Qed.

Variables (test_data : Z) (p : process) (junk : nat → Z).

(** One pass of the monitor for a thread suspended in state [m]. *)
Lemma sim_worker_pass m :
  let addr := r9 (m_regs m) in
  let n := Sim.transfer_len (p_mapped p) addr TEST_MEMORY_SIZE in
  let buf : nat → Z :=
    λ i, if decide (i < n)%nat then m_mem m (addr + Z.of_nat i) else junk i in
  ∃ w',
    worker_iteration Sim.INFERIOR Sim.EPORT
      (Sim.fresh (Sim.suspended (with_machine m p) test_data junk))
    = Done Continue w'
    ∧ p_machine (Sim.proc (kern w')) =
        {| m_regs := {| r8 := rsp (m_regs m); r9 := r9 (m_regs m);
                        rax := rax (m_regs m); rsp := rsp (m_regs m) |};
           m_mem := Sim.store_bytes addr (take n (adjust buf)) (m_mem m) |}
    ∧ all_ok w' =
        bool_decide (n = TEST_MEMORY_SIZE) && seed_ok TEST_MEMORY_SIZE 0 buf.
Proof.
  intros addr n buf.
  unfold worker_iteration, port_wait, mbind, M_bind, bind.
  cbn [mx_port_wait Sim.kernel Sim.fresh Sim.suspended kern all_ok trace
       Sim.sim_port_wait Sim.port].
  unfold ASSERT at 1. rewrite bool_decide_eq_true_2 by done.
  cbn [pkt_type pkt_tid].
  rewrite bool_decide_eq_false_2 by done.
  cbn [MX_EXCP_IS_ARCH Sim.abi]. rewrite bool_decide_eq_true_2 by done.
  cbn [mret M_ret ret]. unfold sys at 1.
  cbn [kern all_ok trace mx_object_get_child Sim.kernel].
  unfold Sim.sim_get_child.
  cbn [Sim.proc with_machine threads p_main_thread p_extra_threads].
  rewrite bool_decide_eq_true_2 by (apply elem_of_cons; by left).
  cbn [fst snd]. unfold ASSERT at 1. rewrite bool_decide_eq_true_2 by done.
  unfold sys_ at 1. cbn [kern all_ok trace dump_inferior_regs Sim.kernel].
  rewrite sim_test_memory_ops_short.
  cbn [kern all_ok trace].
  erewrite fix_inferior_segv_run by reflexivity.
  unfold sys at 1. cbn [kern all_ok trace mx_task_resume Sim.kernel].
  unfold sys_ at 1. cbn [kern all_ok trace tu_handle_close Sim.kernel fst snd].
  unfold ASSERT at 1. rewrite bool_decide_eq_true_2 by done.
  eexists. split; [reflexivity|]. cbn [kern all_ok trace]. split_and!.
  - reflexivity.
  - change (true
            && bool_decide (Z.of_nat n = Z.of_nat TEST_MEMORY_SIZE)
            && seed_ok TEST_MEMORY_SIZE 0 buf
            && bool_decide (Z.of_nat n = Z.of_nat TEST_MEMORY_SIZE)
            = bool_decide (n = TEST_MEMORY_SIZE) && seed_ok TEST_MEMORY_SIZE 0 buf).
    destruct (decide (n = TEST_MEMORY_SIZE)) as [Hn|Hn].
    + rewrite !bool_decide_eq_true_2 by (done || by rewrite Hn).
      by rewrite andb_true_r.
    + rewrite !bool_decide_eq_false_2 by (done || lia).
      done.
Qed.

(** X9.  One pass of the monitor over a thread whose buffer is mapped
    adds [TEST_DATA_ADJUST] modulo 256 to each of the eight bytes at
    [r9], whatever they hold, sets [r8] to the stack pointer, and leaves
    every other register and every other byte of memory as it was. *)
Theorem monitor_adjusts_buffer_in_place m :
  (∀ i : nat, (i < TEST_MEMORY_SIZE)%nat →
     p_mapped p (r9 (m_regs m) + Z.of_nat i) = true) →
  let m' := Sim.monitor p test_data junk m in
  m_regs m' = {| r8 := rsp (m_regs m); r9 := r9 (m_regs m);
                 rax := rax (m_regs m); rsp := rsp (m_regs m) |}
  ∧ (∀ j : nat, (j < TEST_MEMORY_SIZE)%nat →
       m_mem m' (r9 (m_regs m) + Z.of_nat j)
       = (m_mem m (r9 (m_regs m) + Z.of_nat j) + TEST_DATA_ADJUST) `mod` 256)
  ∧ (∀ a, a < r9 (m_regs m) ∨ r9 (m_regs m) + Z.of_nat TEST_MEMORY_SIZE ≤ a →
       m_mem m' a = m_mem m a).
Proof.
  intros Hbuf m'. unfold m'. rewrite monitor_effect by exact Hbuf.
  cbn [m_regs m_mem]. split_and!.
  - done.
  - intros j Hj.
    rewrite (store_bytes_inside _ _ _ _ _ (adjust_lookup _ j Hj)).
    by rewrite decide_True by (unfold TEST_MEMORY_SIZE in Hj; lia).
  - intros a Ha. apply store_bytes_outside. by rewrite length_adjust.
Qed.

(** X10.  When the first byte of the buffer is not mapped the transfers
    move nothing: the pass clears [all_ok], leaves the inferior's memory
    as it was, and still repairs [r8], resumes the thread and goes on
    with the loop. *)
Theorem monitor_repairs_also_when_transfers_fail m :
  p_mapped p (r9 (m_regs m)) = false →
  ∃ w',
    worker_iteration Sim.INFERIOR Sim.EPORT
      (Sim.fresh (Sim.suspended (with_machine m p) test_data junk))
    = Done Continue w'
    ∧ all_ok w' = false
    ∧ p_machine (Sim.proc (kern w')) =
        {| m_regs := {| r8 := rsp (m_regs m); r9 := r9 (m_regs m);
                        rax := rax (m_regs m); rsp := rsp (m_regs m) |};
           m_mem := m_mem m |}.
Proof.
  intros Hunmapped.
  destruct (sim_worker_pass m) as (w' & Hrun & Hm & Hok).
  assert (Sim.transfer_len (p_mapped p) (r9 (m_regs m)) TEST_MEMORY_SIZE = 0%nat)
    as Hn.
  { unfold TEST_MEMORY_SIZE. cbn [Sim.transfer_len]. by rewrite Hunmapped. }
  rewrite Hn in Hm, Hok. exists w'. split_and!; [done|done|].
  by rewrite Hm.
Qed.

(** One fault-and-verify cycle of a process [q] laid out like [p], with
    the monitor as the next response of the debugger. *)
Lemma cycle_under_monitor q rest :
  p_mapped q = p_mapped p →
  mapped_range (p_mapped p) 0 8 = false →
  (∀ i : nat, (i < TEST_MEMORY_SIZE)%nat →
     p_mapped p (test_data + Z.of_nat i) = true) →
  mapped_range (p_mapped p) (rsp (m_regs (p_machine q))) 8 = true →
  p_debugger q = Sim.monitor p test_data junk :: rest →
  ∃ q',
    test_prep_and_segv test_data q = Ret true q'
    ∧ p_mapped q' = p_mapped p
    ∧ rsp (m_regs (p_machine q')) = rsp (m_regs (p_machine q))
    ∧ p_debugger q' = rest
    ∧ p_trace q' = p_trace q ++ [Printf "About to segv"; Fault 0; SegvReturn true]
    ∧ bytes_at (m_mem (p_machine q')) test_data TEST_MEMORY_SIZE
      = [16; 17; 18; 19; 20; 21; 22; 23].
Proof.
  intros Hmap Hnull Hbuf Hsp Hdbg.
  set (seeded := {| m_regs := prep_regs test_data (m_regs (p_machine q));
                    m_mem := seed_test_data test_data TEST_MEMORY_SIZE 0
                               (m_mem (p_machine q)) |}).
  set (buf := λ i : nat, if decide (i < 8)%nat
                         then m_mem seeded (test_data + Z.of_nat i) else junk i).
  assert (∀ j : nat, (j < TEST_MEMORY_SIZE)%nat → buf j = Z.of_nat j) as Hseed.
  { intros j Hj. unfold buf. rewrite decide_True by done.
    apply seed_inside; unfold TEST_MEMORY_SIZE in *; lia. }
  unfold test_prep_and_segv.
  cbn [p_debugger with_machine log]. rewrite Hdbg.
  cbn [segv_here p_debugger with_debugger with_machine log p_machine p_mapped
       m_regs prep_regs r8].
  rewrite Hmap, Hnull.
  rewrite monitor_effect by done.
  rewrite segv_here_mapped
    by (cbn [p_mapped p_machine with_machine log m_regs r8 rsp]; by rewrite Hmap).
  cbn [p_machine with_machine with_debugger m_mem m_regs prep_regs r9].
  fold seeded. fold buf.
  match goal with
  | |- context [check_test_data test_data TEST_MEMORY_SIZE 0 ?mem] =>
      rewrite (proj2 (check_test_data_spec test_data TEST_MEMORY_SIZE 0 mem))
        by (intros j Hj; apply (adjusted_bytes test_data buf); [done|lia])
  end.
  eexists. split; [done|].
  cbn [p_machine p_trace p_debugger p_mapped log with_debugger with_machine
       m_mem m_regs rsp].
  split_and!; [done|done|done|by rewrite <- !app_assoc|].
  by rewrite (bytes_at_eq _ _ _ (λ j, Z.of_nat j + TEST_DATA_ADJUST))
    by (by apply adjusted_bytes).
Qed.

Lemma tries_under_monitor n q rest :
  p_mapped q = p_mapped p →
  mapped_range (p_mapped p) 0 8 = false →
  (∀ i : nat, (i < TEST_MEMORY_SIZE)%nat →
     p_mapped p (test_data + Z.of_nat i) = true) →
  mapped_range (p_mapped p) (rsp (m_regs (p_machine q))) 8 = true →
  p_debugger q = replicate n (Sim.monitor p test_data junk) ++ rest →
  ∃ q',
    segv_tries test_data n q = Ret tt q'
    ∧ p_debugger q' = rest
    ∧ p_trace q' = p_trace q
        ++ mjoin (replicate n [Printf "About to segv"; Fault 0; SegvReturn true]).
Proof.
  revert q. induction n as [|n IH]; intros q Hmap Hnull Hbuf Hsp Hdbg.
  { exists q. cbn. by rewrite app_nil_r. }
  cbn [replicate app] in Hdbg.
  destruct (cycle_under_monitor q _ Hmap Hnull Hbuf Hsp Hdbg)
    as (q1 & Hrun & Hmap1 & Hsp1 & Hdbg1 & Htr1 & _).
  destruct (IH q1) as (q' & Hrun' & Hdbg' & Htr'); try done.
  { by rewrite Hsp1. }
  exists q'. cbn [segv_tries]. rewrite Hrun. split_and!; [done..|].
  rewrite Htr', Htr1. cbn [replicate mjoin list_join]. by rewrite <- app_assoc.
Qed.

(** X12.  The two programs fit together.  For an inferior whose null page
    is unmapped and whose buffer and stack are mapped, with the monitor
    of this test answering its next [NUM_SEGV_TRIES] exceptions:
    [MSG_CRASH] makes it fault four times at address 0, each cycle
    returns true, and it then sends [MSG_RECOVERED_FROM_CRASH], having
    used exactly these four responses. *)
Theorem crash_request_recovers_under_monitor my_done_tests q rest :
  p_mapped q = p_mapped p →
  mapped_range (p_mapped p) 0 8 = false →
  (∀ i : nat, (i < TEST_MEMORY_SIZE)%nat →
     p_mapped p (test_data + Z.of_nat i) = true) →
  mapped_range (p_mapped p) (rsp (m_regs (p_machine q))) 8 = true →
  p_debugger q = replicate NUM_SEGV_TRIES (Sim.monitor p test_data junk) ++ rest →
  ∃ q' d,
    dispatch test_data MSG_CRASH my_done_tests q = Ret my_done_tests q'
    ∧ p_trace q' = p_trace q ++ d
    ∧ sent d = [MSG_RECOVERED_FROM_CRASH]
    ∧ verdicts d = [true; true; true; true]
    ∧ Protocol.faults d = [0; 0; 0; 0]
    ∧ p_debugger q' = rest.
Proof.
  intros Hmap Hnull Hbuf Hsp Hdbg.
  destruct (tries_under_monitor NUM_SEGV_TRIES q rest Hmap Hnull Hbuf Hsp Hdbg)
    as (q1 & Hrun & Hdbg1 & Htr1).
  exists (Inferior.send_msg MSG_RECOVERED_FROM_CRASH q1),
    (mjoin (replicate NUM_SEGV_TRIES
              [Printf "About to segv"; Fault 0; SegvReturn true])
     ++ [Send MSG_RECOVERED_FROM_CRASH]).
  split; [unfold dispatch; by rewrite Hrun|].
  split; [unfold Inferior.send_msg; by rewrite trace_log, Htr1, <- app_assoc|].
  by split_and!.
Qed.

End MonitorOnSim.

(** ** The watchdog's clock and the driver's exit code *)

Section ClockFacts.
Import Watchdog Clock.

Lemma slept_app a b : slept (a ++ b) = slept a + slept b.
Proof.
  unfold slept. induction a as [|x a IH]; simpl; [lia|].
  destruct x; rewrite ?IH; lia.
Qed.

Lemma polls_app a b : polls (a ++ b) = (polls a + polls b)%nat.
Proof. unfold polls. by rewrite List.filter_app, length_app. Qed.

Lemma fired_app a b : fired (a ++ b) = fired a || fired b.
Proof. apply existsb_app. Qed.

(** The loop sleeps one tick before each read of the flag and prints
    only after the last of its reads. *)
Lemma tick_loop_clock n i done_tests_at acts :
  ∃ k : nat,
    (k ≤ n)%nat
    ∧ slept (tick_loop n i done_tests_at acts).2
      = slept acts + Z.of_nat k * WATCHDOG_DURATION_TICK
    ∧ polls (tick_loop n i done_tests_at acts).2 = (polls acts + k)%nat
    ∧ match (tick_loop n i done_tests_at acts).1 with
      | ProcessExit code =>
          code = EXIT_WATCHDOG ∧ k = n
          ∧ fired (tick_loop n i done_tests_at acts).2 = true
      | ThreadExit =>
          (1 ≤ k)%nat
          ∧ fired (tick_loop n i done_tests_at acts).2 = fired acts
      end.
Proof.
  revert i acts. induction n as [|n IH]; intros i acts; cbn [tick_loop].
  - exists 0%nat. cbn [fst snd].
    rewrite slept_app, polls_app, fired_app. cbn.
    rewrite orb_true_r. split_and!; try done; lia.
  - destruct (done_tests_at i).
    + exists 1%nat. cbn [fst snd].
      rewrite !slept_app, !polls_app, !fired_app. cbn.
      rewrite !orb_false_r. split_and!; try done; lia.
    + destruct (IH (S i) ((acts ++ [Sleep WATCHDOG_DURATION_TICK]) ++ [Poll i false]))
        as (k & Hk & Hs & Hp & He).
      exists (S k). rewrite Hs, Hp.
      rewrite !slept_app, !polls_app. cbn.
      split_and!; [lia|lia|lia|].
      destruct (tick_loop n (S i) done_tests_at _).1.
      * destruct He as [Hk1 Hf]. split; [lia|].
        rewrite Hf, !fired_app. cbn. by rewrite !orb_false_r.
      * destruct He as (-> & -> & Hf). done.
Qed.

(** X13.  Whatever the flag does, the watchdog sleeps exactly one tick
    for each read of the flag and reads it between one and
    [WATCHDOG_DURATION_TICKS] times; it prints and ends the process, with
    code 5, only after ten reads and five seconds of sleep in all, and
    otherwise ends its own thread without printing. *)
Theorem watchdog_fires_only_after_five_seconds (done_tests_at : nat → bool) :
  let acts := (watchdog_thread_func done_tests_at).2 in
  slept acts = Z.of_nat (polls acts) * WATCHDOG_DURATION_TICK
  ∧ (1 ≤ polls acts ≤ WATCHDOG_DURATION_TICKS)%nat
  ∧ match (watchdog_thread_func done_tests_at).1 with
    | ProcessExit code =>
        code = 5 ∧ fired acts = true
        ∧ polls acts = WATCHDOG_DURATION_TICKS
        ∧ slept acts = 5000000000
    | ThreadExit => fired acts = false
    end.
Proof.
  intros acts. unfold acts, watchdog_thread_func.
  destruct (tick_loop_clock WATCHDOG_DURATION_TICKS 0 done_tests_at [])
    as (k & Hk & Hs & Hp & He).
  rewrite Hs, Hp. cbn [slept polls foldr List.filter length] in *.
  destruct (tick_loop _ _ _ _).1.
  - destruct He as [Hk1 Hf]. rewrite Hf. split_and!; [lia|lia|lia|done].
  - destruct He as (-> & -> & Hf). rewrite Hf.
    unfold WATCHDOG_DURATION_TICKS, WATCHDOG_DURATION_TICK.
    split_and!; try done; lia.
Qed.

(** X14.  In the driver role [main] returns 0 or -1, as the tests went,
    exactly when it stores the flag before the watchdog's tenth read;
    otherwise the process ends with the watchdog's code 5.  It never
    hangs and never crashes. *)
Theorem driver_exit_code (argv : list string) (env : Driver.environment) :
  argv !! 1%nat ≠ Some "inferior" →
  argv !! 1%nat ≠ Some "segfault" →
  (Driver.main argv env).1 =
    match Driver.env_tests env with
    | Some (success, t) =>
        if decide (t < WATCHDOG_DURATION_TICKS)%nat
        then Exited (if success then 0 else -1)
        else Exited 5
    | None => Exited 5
    end.
Proof.
  intros Hinf Hseg. unfold Driver.main, Driver.is_child.
  rewrite !bool_decide_eq_false_2 by done.
  unfold Driver.run_tests_under_watchdog.
  destruct (Driver.env_tests env) as [[success t]|].
  - case_decide as Ht.
    + unfold watchdog_thread_func.
      rewrite tick_loop_some_seen; [done|].
      exists t. split; [done|]. cbn. by rewrite decide_True by lia.
    + unfold watchdog_thread_func.
      rewrite tick_loop_unseen; [done|].
      intros j Hj. cbn. rewrite decide_False by lia. done.
  - unfold watchdog_thread_func. by rewrite tick_loop_unseen.
Qed.

End ClockFacts.

(** ** The segfault child and the verbosity argument *)

Section SegfaultFacts.
Import Segfault.

Lemma int_at_memset n : int_at (memset_use_stack (S n)) 0 = -1717986919.
Proof. reflexivity. Qed.

Lemma use_stack_sizes_cons_other f stack :
  (∀ bytes, f ≠ Doit1 (Some bytes)) →
  use_stack_sizes (f :: stack) = use_stack_sizes stack.
Proof.
  intros Hf. unfold use_stack_sizes. cbn.
  destruct f as [[bytes|]| | |]; cbn; rewrite ?app_nil_r; try done.
  by destruct (Hf bytes).
Qed.

(** X15.  The call chain of the segfault child, for any starting value
    [d] of [crash_depth]: the store goes to address 42 from a stack of
    [2 d + 2] frames above the caller's, the [use_stack] arrays on it
    have [d], [d - 1], ..., 1 elements from the outside in,
    [crash_depth] has been counted down to 0, and the value stored is the
    [int] the caller passed when [d] is 0 and the pattern [0x99999999]
    otherwise. *)
Theorem segfault_chain (d : nat) (p : Z) (stack : list frame) :
  let s := test_segfault_doit1 d p stack in
  st_addr s = 42
  ∧ st_crash_depth s = 0%nat
  ∧ length (st_stack s) = (2 * d + 2 + length stack)%nat
  ∧ use_stack_sizes (st_stack s) = use_stack_sizes stack ++ rev (seq 1 d)
  ∧ st_value s = match d with O => p | S _ => -1717986919 end
  ∧ ∃ frames, st_stack s = Leaf leaf_stack_size :: Doit1 None :: frames ++ stack.
Proof.
  revert p stack. induction d as [|d IH]; intros p stack s; subst s.
  - cbn [test_segfault_doit1 test_segfault_leaf st_addr st_crash_depth st_stack
         st_value]. split_and!; try done.
    + rewrite !use_stack_sizes_cons_other by done. cbn. by rewrite app_nil_r.
    + by exists [].
  - cbn [test_segfault_doit1].
    destruct (IH (int_at (memset_use_stack (S d)) 0)
                 (Doit2 :: Doit1 (Some (memset_use_stack (S d))) :: stack))
      as (Ha & Hc & Hl & Hu & Hv & frames & Hs).
    split_and!; [done|done| | | |].
    + rewrite Hl. cbn [length]. lia.
    + rewrite Hu. rewrite use_stack_sizes_cons_other by done.
      unfold use_stack_sizes at 1. cbn [omap list_omap rev].
      fold (use_stack_sizes stack).
      replace (length (memset_use_stack (S d)) `div` 4)%nat with (S d).
      2:{ unfold memset_use_stack. rewrite length_replicate.
          by rewrite Nat.div_mul. }
      rewrite seq_S, rev_app_distr, <- app_assoc.
      cbn [rev app Nat.add].
      done.
    + rewrite Hv. rewrite int_at_memset. by destruct d.
    + exists (frames ++ [Doit2; Doit1 (Some (memset_use_stack (S d)))]).
      rewrite Hs. by rewrite <- !app_assoc.
Qed.

End SegfaultFacts.

Section VerbosityFacts.
Import Verbosity.
Variable atoi : string → Z.

(** X16.  [check_verbosity] never looks at [argv[0]]; the level is taken
    from the first of the other arguments that starts with [v=], what
    follows it being ignored; and no level is set exactly when no such
    argument exists, in particular for an empty argument vector. *)
Theorem check_verbosity_first_match (argv : list string) :
  (∀ prog pre text post,
     argv = prog :: pre ++ String "v" (String "=" text) :: post →
     Forall (λ arg, level_text arg = None) pre →
     check_verbosity atoi argv = Some (atoi text))
  ∧ (check_verbosity atoi argv = None
     ↔ Forall (λ arg, level_text arg = None) (tail argv)).
Proof.
  unfold check_verbosity. split.
  - intros prog pre text post -> Hpre. cbn [tail].
    induction Hpre as [|arg pre Harg _ IH]; cbn [app scan].
    + done.
    + by rewrite Harg.
  - generalize (tail argv). intros args.
    induction args as [|arg args IH]; cbn [scan].
    + split; [constructor|done].
    + destruct (level_text arg) as [text|] eqn:Harg.
      * split; [done|]. intros Hall. inversion Hall; simplify_eq.
      * rewrite IH. split.
        -- intros Hall. by constructor.
        -- intros Hall. by inversion Hall.
Qed.

End VerbosityFacts.

(** ** These properties on the concrete runs *)

Section MoreWitnesses.
Import Example.

(** A ping answered, then the request to finish. *)
Lemma msg_loop_answers_in_order_witness :
  ∃ d,
    Inferior.p_trace
      (Inferior.final
         (Inferior.msg_loop buffer0 [Some MSG_PING; Some MSG_DONE] process0))
    = Inferior.p_trace process0 ++ d
    ∧ Inferior.sent d
      `prefix_of` omap Protocol.reply (Protocol.served [Some MSG_PING; Some MSG_DONE])
    ∧ (∀ ok p',
         Inferior.msg_loop buffer0 [Some MSG_PING; Some MSG_DONE] process0
         = Inferior.Ret ok p' →
         Inferior.sent d
         = omap Protocol.reply (Protocol.served [Some MSG_PING; Some MSG_DONE])
         ∧ [Some MSG_PING; Some MSG_DONE]
             !! length (Protocol.served [Some MSG_PING; Some MSG_DONE])
           = Some (if ok then Some MSG_DONE else None)).
Proof.
  apply (msg_loop_answers_in_order buffer0 [Some MSG_PING; Some MSG_DONE] process0).
  reflexivity.
Defined.

(** A ping, then a receive that fails: exit code 20. *)
Lemma test_inferior_exit_codes_witness :
  (Inferior.test_inferior buffer0 [Some MSG_PING; None] process0).1 = Exited 20
  ∧ let '(e, p') := Inferior.test_inferior buffer0 [Some MSG_PING; None] process0 in
    (done_tests (Inferior.p_globals p') = true ↔ e = Exited EXIT_INFERIOR_DONE)
    ∧ match e with
      | Exited code =>
          (code = 1234 ∧ Some MSG_DONE ∈ [Some MSG_PING; None])
          ∨ (code = 20 ∧ None ∈ [Some MSG_PING; None])
          ∨ (code = 21 ∧ Some MSG_CRASH ∈ [Some MSG_PING; None]
             ∧ last (Inferior.verdicts (Inferior.p_trace p')) = Some false)
      | Hung => True
      | Crashed => False
      end.
Proof.
  split; [reflexivity|].
  apply (test_inferior_exit_codes buffer0 [Some MSG_PING; None] process0).
  reflexivity.
Defined.

(** A crash request behind the request to finish is never read. *)
Lemma msg_loop_reads_nothing_after_its_end_witness :
  Inferior.msg_loop_from buffer0 ([Some MSG_DONE] ++ [Some MSG_CRASH]) false process0
  = Inferior.msg_loop_from buffer0 [Some MSG_DONE] false process0.
Proof.
  apply msg_loop_reads_nothing_after_its_end.
  left. exists true. reflexivity.
Defined.


(** The byte 250 at the end of the buffer wraps around to 10. *)
Lemma monitor_adjusts_buffer_in_place_witness :
  Inferior.m_mem (Sim.monitor process0 buffer0 junk0 Samples.suspended0) 991 = 10
  ∧ Inferior.m_mem (Sim.monitor process0 buffer0 junk0 Samples.suspended0) 992 = 3
  ∧ Inferior.r8 (Inferior.m_regs
                   (Sim.monitor process0 buffer0 junk0 Samples.suspended0)) = 960.
Proof.
  assert (∀ i : nat, (i < TEST_MEMORY_SIZE)%nat →
            Inferior.p_mapped process0
              (Inferior.r9 (Inferior.m_regs Samples.suspended0) + Z.of_nat i) = true)
    as Hbuf.
  { intros i Hi. apply bool_decide_eq_true. cbn. unfold TEST_MEMORY_SIZE in Hi. lia. }
  destruct (monitor_adjusts_buffer_in_place buffer0 process0 junk0
              Samples.suspended0 Hbuf) as (Hregs & Hin & Hout).
  split_and!.
  - exact (Hin 7%nat ltac:(unfold TEST_MEMORY_SIZE; lia)).
  - apply (Hout 992). right. cbn. unfold TEST_MEMORY_SIZE. lia.
  - rewrite Hregs. reflexivity.
Defined.

(** The buffer register of [machine0] points at unmapped memory. *)
Lemma monitor_repairs_also_when_transfers_fail_witness :
  ∃ w',
    Supervisor.worker_iteration Sim.INFERIOR Sim.EPORT
      (Sim.fresh (Sim.suspended (Inferior.with_machine machine0 process0)
                    buffer0 junk0))
    = Supervisor.Done Supervisor.Continue w'
    ∧ Supervisor.all_ok w' = false
    ∧ Inferior.p_machine (Sim.proc (Supervisor.kern w')) =
        {| Inferior.m_regs :=
             {| Inferior.r8 := 960; Inferior.r9 := 9;
                Inferior.rax := 1; Inferior.rsp := 960 |};
           Inferior.m_mem := Inferior.m_mem machine0 |}.
Proof.
  apply (monitor_repairs_also_when_transfers_fail buffer0 process0 junk0 machine0).
  reflexivity.
Defined.

(** The null page mapped: one cycle, no exception, exit code 21. *)
Lemma unfaulting_load_exits_21_witness :
  ∃ p',
    Inferior.test_prep_and_segv buffer0 Samples.unguarded = Inferior.Ret false p'
    ∧ Inferior.dispatch buffer0 MSG_CRASH false Samples.unguarded
      = Inferior.Exit 21 p'
    ∧ Inferior.p_trace p'
      = Inferior.p_trace Samples.unguarded
        ++ [Inferior.Printf "About to segv"; Inferior.SegvReturn false]
    ∧ Inferior.p_debugger p' = Inferior.p_debugger Samples.unguarded.
Proof.
  apply (unfaulting_load_exits_21 buffer0 false Samples.unguarded).
  reflexivity.
Defined.

(** The inferior of the examples under four responses of the monitor. *)
Lemma crash_request_recovers_under_monitor_witness :
  ∃ q' d,
    Inferior.dispatch buffer0 MSG_CRASH false monitored = Inferior.Ret false q'
    ∧ Inferior.p_trace q' = Inferior.p_trace monitored ++ d
    ∧ Inferior.sent d = [MSG_RECOVERED_FROM_CRASH]
    ∧ Inferior.verdicts d = [true; true; true; true]
    ∧ Protocol.faults d = [0; 0; 0; 0]
    ∧ Inferior.p_debugger q' = [].
Proof.
  apply (crash_request_recovers_under_monitor buffer0 process0 junk0 false
           monitored []).
  - reflexivity.
  - reflexivity.
  - intros i Hi. apply bool_decide_eq_true. unfold buffer0.
    unfold TEST_MEMORY_SIZE in Hi. lia.
  - reflexivity.
  - reflexivity.
Defined.

(** The driver started without arguments, its tests passing in time. *)
Lemma driver_exit_code_witness :
  (Driver.main ["debugger"] environment0).1 = Exited 0.
Proof.
  apply (driver_exit_code ["debugger"] environment0); discriminate.
Defined.

(** The program name starts with [v=]; the second [v=] comes too late. *)
Lemma check_verbosity_first_match_witness :
  Verbosity.check_verbosity (λ s, Z.of_nat (String.length s))
    ["v=9"; "inferior"; "v=ab"; "v=abcd"] = Some 2.
Proof.
  apply (proj1 (check_verbosity_first_match (λ s, Z.of_nat (String.length s))
                  ["v=9"; "inferior"; "v=ab"; "v=abcd"])
           "v=9" ["inferior"] "ab" ["v=abcd"]).
  - reflexivity.
  - by repeat constructor.
Defined.

End MoreWitnesses.
